(** * process_media.py: preset resolution, job construction and batch loop

    A shallow embedding of [process_media.py] and the properties of its
    preset pipeline.

    Conventions of the model.
    - A Python [str] is a [string]: a sequence of code points below 256.
    - A Python [int] is a [Z].  The interpreter's optional cap on the length
      of decimal conversions is taken as disabled.
    - A value read from the preset file is a [value]; a dictionary is an
      object in a heap, named by its address, so that aliasing between a
      base preset and the presets derived from it is visible.  JSON arrays
      and fractional numbers do not occur in presets and are not part of
      [value].
    - A path is a POSIX path.
    - A raised exception is a [Raise]; nothing in the program catches one. *)

From Stdlib Require Import ZArith Ascii String List Lia Bool.
From Stdlib Require Import DecimalString.
From Stdlib Require DecimalPos.
From stdpp Require Import base option gmap strings list sorting.

Local Open Scope Z_scope.

(** ** Python values, exceptions and results *)

Abbreviation loc := nat.

Inductive value : Type :=
  | VNone
  | VBool (b : bool)
  | VInt (n : Z)
  | VStr (s : string)
  | VDict (l : loc).

(** The exceptions of the program.  [OutOfModel] marks the few operations
    whose outcome the model leaves open: the text of a dictionary, and the
    use of an address that names no object. *)
Inductive exn : Type :=
  | KeyError (key : string)
  | ValueError (msg : string)
  | TypeError
  | AttributeError
  | SystemExit (msg : string)
  | JSONDecodeError
  | OSError
  | OutOfModel.

Inductive result (A : Type) : Type :=
  | Ok (a : A)
  | Raise (e : exn).
Arguments Ok {A} a.
Arguments Raise {A} e.

Definition rbind {A B} (r : result A) (k : A -> result B) : result B :=
  match r with
  | Ok a => k a
  | Raise e => Raise e
  end.

Declare Scope res_scope.
Delimit Scope res_scope with res.
Notation "'let?' x := r 'in' k" := (rbind r (fun x => k))
  (at level 10, x name, r at level 100, k at level 200) : res_scope.

Abbreviation dict := (gmap string value).
Abbreviation heap := (gmap loc (gmap string value)).

(** ** Characters and strings *)

Definition code (c : ascii) : N := N_of_ascii c.

Definition is_digit (c : ascii) : bool :=
  (48 <=? code c)%N && (code c <=? 57)%N.

Definition digit_val (c : ascii) : Z := Z.of_N (code c) - 48.

(** The characters [int] skips around a numeral: the ASCII white space and,
    among the code points from 128 to 255, NEL and the no-break space. *)
Definition py_isspace (c : ascii) : bool :=
  let n := code c in
  ((9 <=? n)%N && (n <=? 13)%N) || (n =? 32)%N || (n =? 133)%N || (n =? 160)%N.

Fixpoint lstrip (cs : list ascii) : list ascii :=
  match cs with
  | c :: cs' => if py_isspace c then lstrip cs' else cs
  | [] => []
  end.

Definition strip (cs : list ascii) : list ascii :=
  rev (lstrip (rev (lstrip cs))).

(** Digits of a numeral, with single underscores allowed between digits. *)
Fixpoint digits_value (cs : list ascii) (after_digit : bool) (acc : Z)
  : option Z :=
  match cs with
  | [] => if after_digit then Some acc else None
  | c :: cs' =>
      if is_digit c then digits_value cs' true (10 * acc + digit_val c)
      else if Ascii.eqb c "_" then
        if after_digit then digits_value cs' false acc else None
      else None
  end.

Definition signed_value (cs : list ascii) : option Z :=
  match cs with
  | c :: cs' =>
      if Ascii.eqb c "-" then Z.opp <$> digits_value cs' false 0
      else if Ascii.eqb c "+" then digits_value cs' false 0
      else digits_value cs false 0
  | [] => None
  end.

(** [int(s)] for a string [s]; [None] stands for the ValueError. *)
Definition parse_int (s : string) : option Z :=
  signed_value (strip (list_ascii_of_string s)).

Definition invalid_literal : exn :=
  ValueError "invalid literal for int() with base 10".

Definition int_of_str (s : string) : result Z :=
  match parse_int s with
  | Some n => Ok n
  | None => Raise invalid_literal
  end.

(** [str(n)] for an integer [n]. *)
Definition str_of_int (n : Z) : string :=
  NilZero.string_of_int (Z.to_int n).

(** [int(v)] as [build_cmd] applies it to a preset entry. *)
Definition py_int (v : value) : result Z :=
  match v with
  | VInt n => Ok n
  | VBool b => Ok (if b then 1 else 0)
  | VStr s => int_of_str s
  | VNone | VDict _ => Raise TypeError
  end.

(** [str(v)], also the text an f-string substitutes for [{v}].  The text of
    a dictionary is not modelled. *)
Definition py_str (v : value) : result string :=
  match v with
  | VStr s => Ok s
  | VInt n => Ok (str_of_int n)
  | VBool b => Ok (if b then "True" else "False")
  | VNone => Ok "None"
  | VDict _ => Raise OutOfModel
  end.

Definition lower_char (c : ascii) : ascii :=
  let n := code c in
  if ((65 <=? n)%N && (n <=? 90)%N)
     || ((192 <=? n)%N && (n <=? 222)%N && negb (n =? 215)%N)
  then ascii_of_N (n + 32) else c.

Fixpoint lower (s : string) : string :=
  match s with
  | EmptyString => EmptyString
  | String c s' => String (lower_char c) (lower s')
  end.

(** [v.lower()]: only a string has the method. *)
Definition py_lower (v : value) : result string :=
  match v with
  | VStr s => Ok (lower s)
  | _ => Raise AttributeError
  end.

(** [s[:-1]] *)
Definition drop_last (s : string) : string :=
  string_of_list_ascii (removelast (list_ascii_of_string s)).

(** [vb[:-1]] for a preset entry [vb].  Slicing a dictionary fails in a way
    that depends on the interpreter's version. *)
Definition py_drop_last (v : value) : result string :=
  match v with
  | VStr s => Ok (drop_last s)
  | VNone | VBool _ | VInt _ => Raise TypeError
  | VDict _ => Raise OutOfModel
  end.

(** [v == s] for a string literal [s]. *)
Definition eq_str (v : value) (s : string) : bool :=
  match v with
  | VStr t => String.eqb t s
  | _ => false
  end.

(** [d.get(k, default)] *)
Definition get (d : gmap string value) (k : string) (default : value) : value :=
  match d !! k with
  | Some v => v
  | None => default
  end.

(** [d[k]] *)
Definition getitem (d : gmap string value) (k : string) : result value :=
  match d !! k with
  | Some v => Ok v
  | None => Raise (KeyError k)
  end.

Fixpoint join (sep : string) (l : list string) : string :=
  match l with
  | [] => ""
  | [s] => s
  | s :: l' => s +:+ sep +:+ join sep l'
  end.

(** [sep.join(l)] for a list of values: every item has to be a string. *)
Fixpoint all_str (l : list value) : result (list string) :=
  match l with
  | [] => Ok []
  | VStr s :: l' => (let? r := all_str l' in Ok (s :: r))%res
  | _ :: _ => Raise TypeError
  end.

Definition py_join (sep : string) (l : list value) : result string :=
  (let? ss := all_str l in Ok (join sep ss))%res.

(** ** Paths

    A [pathlib] path is the list of its parts; an absolute path starts with
    its root, ["/"] or ["//"]. *)

Abbreviation path := (list string).

Definition is_root (s : string) : bool :=
  String.eqb s "/" || String.eqb s "//".

(** [str(p)] *)
Definition path_str (p : list string) : string :=
  match p with
  | [] => "."
  | r :: rest => if is_root r then r +:+ join "/" rest else join "/" p
  end.

Fixpoint split_on (sep : ascii) (cs : list ascii) : list (list ascii) :=
  match cs with
  | [] => [[]]
  | c :: cs' =>
      if Ascii.eqb c sep then [] :: split_on sep cs'
      else match split_on sep cs' with
           | w :: ws => (c :: w) :: ws
           | [] => [[c]]
           end
  end.

Definition path_root (cs : list ascii) : list string :=
  match cs with
  | "/"%char :: "/"%char :: "/"%char :: _ => ["/"]
  | "/"%char :: "/"%char :: _ => ["//"]
  | "/"%char :: _ => ["/"]
  | _ => []
  end.

Definition keep_part (s : string) : bool :=
  negb (String.eqb s "") && negb (String.eqb s ".").

(** The parts [pathlib] reads from a string. *)
Definition parse_path (s : string) : list string :=
  let cs := list_ascii_of_string s in
  path_root cs
    ++ List.filter keep_part (map string_of_list_ascii (split_on "/" cs)).

(** [base / s] *)
Definition path_div (base : list string) (s : string) : list string :=
  let p := parse_path s in
  match p with
  | r :: _ => if is_root r then p else base ++ p
  | [] => base
  end.

(** [p.name]: the final part, unless it is the root. *)
Definition path_name (p : list string) : string :=
  match rev p with
  | n :: _ :: _ => n
  | [n] => if is_root n then "" else n
  | [] => ""
  end.

(** Index of the last dot of a name, as [str.rfind] counts it. *)
Fixpoint rfind_dot (cs : list ascii) (i : nat) (found : option nat)
  : option nat :=
  match cs with
  | [] => found
  | c :: cs' =>
      rfind_dot cs' (S i) (if Ascii.eqb c "." then Some i else found)
  end.

(** [p.stem] *)
Definition path_stem (p : list string) : string :=
  let name := path_name p in
  let cs := list_ascii_of_string name in
  match rfind_dot cs 0%nat None with
  | Some i =>
      if (0 <? i)%nat && (i <? length cs - 1)%nat
      then string_of_list_ascii (take i cs)
      else name
  | None => name
  end.

(** ** The filter graph and the rate-control arguments *)

Definition strategy_error : exn :=
  ValueError "strategy must be 'cover' or 'contain'".

Definition mode_error : exn :=
  ValueError "encode.mode must be 'bitrate' or 'crf'".

Definition build_filter (width height : Z) (strategy pad_color : value)
  : result string :=
  if eq_str strategy "cover" then
    Ok ("scale=" +:+ str_of_int width +:+ ":" +:+ str_of_int height
          +:+ ":force_original_aspect_ratio=increase,"
          +:+ "crop=" +:+ str_of_int width +:+ ":" +:+ str_of_int height
          +:+ ",setsar=1")
  else if eq_str strategy "contain" then
    (let? color := py_str pad_color in
     Ok ("scale=" +:+ str_of_int width +:+ ":" +:+ str_of_int height
           +:+ ":force_original_aspect_ratio=decrease,"
           +:+ "pad=" +:+ str_of_int width +:+ ":" +:+ str_of_int height
           +:+ ":(ow-iw)/2:(oh-ih)/2:" +:+ color +:+ ",setsar=1"))%res
  else Raise strategy_error.

Definition build_video_args (enc : gmap string value) : result (list value) :=
  (let x264_preset := get enc "x264_preset" (VStr "medium") in
   let args := [VStr "-preset"; x264_preset] in
   let? mode := py_lower (get enc "mode" (VStr "bitrate")) in
   if String.eqb mode "bitrate" then
     let vb := get enc "video_bitrate" (VStr "5000k") in
     let? digits := py_drop_last vb in
     let? n := int_of_str digits in
     Ok (args ++ [VStr "-b:v"; vb; VStr "-maxrate"; vb;
                  VStr "-bufsize"; VStr (str_of_int (n * 2) +:+ "k")])
   else if String.eqb mode "crf" then
     let? crf := py_str (get enc "crf" (VInt 20)) in
     Ok (args ++ [VStr "-crf"; VStr crf; VStr "-b:v"; VStr "0"])
   else Raise mode_error)%res.

Definition default_encode : gmap string value :=
  <["mode" := VStr "bitrate"]>
    (<["video_bitrate" := VStr "5000k"]>
       (<["x264_preset" := VStr "medium"]> ∅)).

(** What [build_video_args] is handed by [build_cmd]: the entry under
    ["encode"], or the default dictionary.  An entry that is not a
    dictionary has no [get] method. *)
Definition encode_of (h : gmap loc (gmap string value))
    (p : gmap string value) : result (gmap string value) :=
  match p !! "encode" with
  | None => Ok default_encode
  | Some (VDict l) =>
      match h !! l with
      | Some enc => Ok enc
      | None => Raise OutOfModel
      end
  | Some _ => Raise AttributeError
  end.

Definition build_cmd (h : gmap loc (gmap string value))
    (infile outfile : list string) (p : gmap string value)
  : result (list value) :=
  (let? w := getitem p "width" in
   let? width := py_int w in
   let? ht := getitem p "height" in
   let? height := py_int ht in
   let? fps := py_int (get p "fps" (VInt 30)) in
   let strategy := get p "strategy" (VStr "cover") in
   let pad_color := get p "pad_color" (VStr "black") in
   let vcodec := get p "vcodec" (VStr "libx264") in
   let pix_fmt := get p "pix_fmt" (VStr "yuv420p") in
   let profile := get p "profile" (VStr "high") in
   let audio_bitrate := get p "audio_bitrate" (VStr "128k") in
   let? vf := build_filter width height strategy pad_color in
   let? enc := encode_of h p in
   let? v_args := build_video_args enc in
   Ok ([VStr "ffmpeg"; VStr "-y";
        VStr "-i"; VStr (path_str infile);
        VStr "-vf"; VStr vf;
        VStr "-r"; VStr (str_of_int fps);
        VStr "-c:v"; vcodec;
        VStr "-profile:v"; profile;
        VStr "-pix_fmt"; pix_fmt]
       ++ v_args
       ++ [VStr "-movflags"; VStr "+faststart";
           VStr "-c:a"; VStr "aac";
           VStr "-b:a"; audio_bitrate;
           VStr (path_str outfile)]))%res.

Definition normalize_outname (stem preset_name : string) (container : value)
  : result string :=
  (let? c := py_str container in
   Ok (stem +:+ "_" +:+ preset_name +:+ "." +:+ c))%res.

(** ** The program state and its monad

    The heap of dictionaries, the commands handed to the encoder so far and
    the lines printed so far.  A computation returns the state it reached
    also when it raises. *)

Record state : Type := State {
  st_heap : gmap loc (gmap string value);
  st_calls : list (list string);
  st_stdout : list string
}.

Definition M (A : Type) : Type := state -> state * result A.

Definition ret {A} (a : A) : M A := fun st => (st, Ok a).

Definition raise {A} (e : exn) : M A := fun st => (st, Raise e).

Definition bind {A B} (m : M A) (k : A -> M B) : M B :=
  fun st =>
    match m st with
    | (st', Ok a) => k a st'
    | (st', Raise e) => (st', Raise e)
    end.

Definition lift {A} (r : result A) : M A := fun st => (st, r).

Declare Scope prog_scope.
Delimit Scope prog_scope with prog.
Notation "'let!' x := m 'in' k" := (bind m (fun x => k))
  (at level 10, x name, m at level 100, k at level 200) : prog_scope.
Notation "m ;; k" := (bind m (fun _ => k))
  (at level 100, k at level 200, right associativity) : prog_scope.

Definition set_heap (h : gmap loc (gmap string value)) (st : state) : state :=
  State h (st_calls st) (st_stdout st).

(** A new dictionary object with the entries [d]. *)
Definition alloc (d : gmap string value) : M loc :=
  fun st =>
    let l := fresh (dom (st_heap st)) in
    (set_heap (<[l := d]> (st_heap st)) st, Ok l).

(** The entries of the object at [l]; an address is never dangling in a run
    of the program. *)
Definition read (l : loc) : M (gmap string value) :=
  fun st =>
    match st_heap st !! l with
    | Some d => (st, Ok d)
    | None => (st, Raise OutOfModel)
    end.

(** [d[k] = v] on the object at [l] *)
Definition setitem (l : loc) (k : string) (v : value) : M unit :=
  fun st =>
    match st_heap st !! l with
    | Some d => (set_heap (<[l := <[k := v]> d]> (st_heap st)) st, Ok tt)
    | None => (st, Raise OutOfModel)
    end.

(** [print(s)] *)
Definition print (s : string) : M unit :=
  fun st => (State (st_heap st) (st_calls st) (st_stdout st ++ [s]), Ok tt).

Definition dict_of_str_error : exn :=
  ValueError
    "dictionary update sequence element #0 has length 1; 2 is required".

(** [dict(v)]: a new dictionary with the entries of [v]. *)
Definition dict_of (v : value) : M loc :=
  match v with
  | VDict l => (let! d := read l in alloc d)%prog
  | VStr s =>
      if String.eqb s "" then alloc ∅
      else raise dict_of_str_error
  | VNone | VBool _ | VInt _ => raise TypeError
  end.

(** ** Overrides *)

(** The parsed command line, as far as the batch uses it.  A field that was
    not given is [None]. *)
Record Namespace : Type := {
  dry_run : bool;
  width : option Z;
  height : option Z;
  fps : option Z;
  strategy : option string;
  mode : option string;
  video_bitrate : option string;
  crf : option Z;
  x264_preset : option string;
  audio_bitrate : option string
}.

(** [if o: d[k] = o] for an optional integer: [None] and [0] are false. *)
Definition set_if_int (o : option Z) (l : loc) (k : string) : M unit :=
  match o with
  | Some n => if n =? 0 then ret tt else setitem l k (VInt n)
  | None => ret tt
  end.

(** [if o: d[k] = o] for an optional string: [None] and [""] are false. *)
Definition set_if_str (o : option string) (l : loc) (k : string) : M unit :=
  match o with
  | Some s => if String.eqb s "" then ret tt else setitem l k (VStr s)
  | None => ret tt
  end.

Definition apply_overrides (p : value) (args : Namespace) : M loc :=
  (let! out := dict_of p in
   set_if_int (width args) out "width" ;;
   set_if_int (height args) out "height" ;;
   set_if_int (fps args) out "fps" ;;
   set_if_str (strategy args) out "strategy" ;;
   let! d := read out in
   let! empty := alloc ∅ in
   let! enc := dict_of (get d "encode" (VDict empty)) in
   set_if_str (mode args) enc "mode" ;;
   set_if_str (video_bitrate args) enc "video_bitrate" ;;
   match crf args with
   | Some c => setitem enc "mode" (VStr "crf") ;; setitem enc "crf" (VInt c)
   | None => ret tt
   end ;;
   set_if_str (x264_preset args) enc "x264_preset" ;;
   setitem out "encode" (VDict enc) ;;
   set_if_str (audio_bitrate args) out "audio_bitrate" ;;
   ret out)%prog.

(** ** Loading the presets *)

(** A JSON document, as far as presets use the format: no arrays and no
    fractional numbers. *)
#[warnings="-register-all"]
Inductive json : Type :=
  | JNull
  | JBool (b : bool)
  | JInt (n : Z)
  | JStr (s : string)
  | JObject (members : list (string * json)).

(** The value [json.load] builds for a document: an object becomes a new
    dictionary, filled member by member (a repeated key keeps its last
    value). *)
Fixpoint json_value (j : json) : M value :=
  match j with
  | JNull => ret VNone
  | JBool b => ret (VBool b)
  | JInt n => ret (VInt n)
  | JStr s => ret (VStr s)
  | JObject members =>
      (let! d :=
         (fix fill (ms : list (string * json)) (d : gmap string value)
            : M (gmap string value) :=
            match ms with
            | [] => ret d
            | (k, j') :: ms' =>
                let! v := json_value j' in fill ms' (<[k := v]> d)
            end) members ∅ in
       let! l := alloc d in
       ret (VDict l))%prog
  end.

(** What [load_presets] finds at the path: nothing, a text that is not
    JSON, or the text of the document [doc]. *)
Inductive preset_file : Type :=
  | NotFound
  | Malformed
  | Parsed (doc : json).

Definition load_presets (preset_path : list string) (f : preset_file)
  : M value :=
  match f with
  | NotFound =>
      raise (SystemExit ("Error: presets file not found at "
                           +:+ path_str preset_path))
  | Malformed => raise JSONDecodeError
  | Parsed doc => json_value doc
  end.

(** ** Collecting the inputs *)

Definition VIDEO_EXTS : list string :=
  [".mp4"; ".mov"; ".m4v"; ".mkv"; ".avi"; ".webm"].

(** A file-system entry below the input path. *)
#[warnings="-register-all"]
Inductive node : Type :=
  | File
  | Dir (children : list (string * node)).

(** Every entry below a directory, in the order the traversal meets them. *)
Fixpoint entries (prefix : list string) (n : node) : list (list string) :=
  match n with
  | File => []
  | Dir children =>
      (fix go (l : list (string * node)) : list (list string) :=
         match l with
         | [] => []
         | (name, c) :: l' =>
             ((prefix ++ [name]) :: entries (prefix ++ [name]) c) ++ go l'
         end) children
  end.

Fixpoint ends_with (suffix s : list ascii) : bool :=
  if decide (s = suffix) then true
  else match s with
       | [] => false
       | _ :: s' => ends_with suffix s'
       end.

(** The name of [p] matches the pattern ["*" + ext]. *)
Definition matches (ext : string) (p : list string) : bool :=
  ends_with (list_ascii_of_string ext) (list_ascii_of_string (path_name p)).

(** [input_path.rglob("*" + ext)] *)
Definition rglob (input_path : list string) (tree : node) (ext : string)
  : list (list string) :=
  List.filter (matches ext) (entries input_path tree).

(** The order of paths: part by part. *)
Fixpoint path_le (p q : list string) : Prop :=
  match p, q with
  | [], _ => True
  | _ :: _, [] => False
  | a :: p', b :: q' => a ≠ b ∧ String.le a b ∨ a = b ∧ path_le p' q'
  end.

Global Instance path_le_dec : RelDecision path_le.
Proof.
  intros p. induction p as [|a p IH]; intros [|b q]; simpl;
    [left; exact I | left; exact I | right; tauto | ].
  destruct (IH q); apply _.
Defined.

(** [sorted(files)].  The order of paths is total and antisymmetric, so
    every sorting procedure returns the same list (see
    [sorted_paths_unique]). *)
Definition sorted (files : list (list string)) : list (list string) :=
  merge_sort path_le files.

(** [exts_order] is the order in which the set [VIDEO_EXTS] is iterated;
    [entry] is what the file system holds at [input_path]. *)
Definition collect_inputs (exts_order : list string)
    (input_path : list string) (entry : option node) : M (list (list string)) :=
  match entry with
  | Some File => ret [input_path]
  | Some (Dir children) =>
      let files := flat_map (rglob input_path (Dir children)) exts_order in
      ((match files with
        | [] => print ("Warning: No videos found in " +:+ path_str input_path)
        | _ :: _ => ret tt
        end) ;;
       ret (sorted files))%prog
  | None =>
      raise (SystemExit ("Error: input path does not exist: "
                           +:+ path_str input_path))
  end.

(** ** Running the jobs *)

Section Batch.

(** The external encoder: the exit status [subprocess.call] returns for a
    command, given the commands run before it, or the exception it
    raises. *)
Variable encoder : list (list string) -> list string -> result Z.

Definition subprocess_call (cmd : list value) : M Z :=
  fun st =>
    match all_str cmd with
    | Ok argv =>
        (State (st_heap st) (st_calls st ++ [argv]) (st_stdout st),
         encoder (st_calls st) argv)
    | Raise e => (st, Raise e)
    end.

Definition process_one (infile outdir : list string) (preset_name : string)
    (p : loc) (dry : bool) : M Z :=
  (let! d := read p in
   let container := get d "container" (VStr "mp4") in
   let! name := lift (normalize_outname (path_stem infile) preset_name
                        container) in
   let outfile := path_div outdir name in
   let! cmd := (fun st => (st, build_cmd (st_heap st) infile outfile d)) in
   if dry then
     let! line := lift (py_join " " cmd) in
     print ("DRY RUN: " +:+ line) ;;
     ret 0
   else
     let! line := lift (py_join " " cmd) in
     print ("Running: " +:+ line) ;;
     subprocess_call cmd)%prog.

Variable presets : gmap string value.
Variable outdir : list string.
Variable args : Namespace.

Definition error_line (infile : list string) (n : string) (code : Z)
  : string :=
  "Error processing " +:+ path_str infile +:+ " with preset " +:+ n
    +:+ " (exit " +:+ str_of_int code +:+ ")".

(** One turn of the inner loop, up to the exit status of the job. *)
Definition job (infile : list string) (n : string) : M Z :=
  (let! base_p := lift (getitem presets n) in
   let! p := apply_overrides base_p args in
   process_one infile outdir n p (dry_run args))%prog.

(** [for n in names: ...], with the running value of [exit_code]. *)
Fixpoint names_loop (infile : list string) (names : list string)
    (exit_code : Z) : M Z :=
  match names with
  | [] => ret exit_code
  | n :: names' =>
      (let! code := job infile n in
       if code =? 0 then names_loop infile names' exit_code
       else
         print (error_line infile n code) ;;
         names_loop infile names' code)%prog
  end.

(** [for infile in inputs: ...] *)
Fixpoint inputs_loop (inputs : list (list string)) (names : list string)
    (exit_code : Z) : M Z :=
  match inputs with
  | [] => ret exit_code
  | infile :: inputs' =>
      (let! ec := names_loop infile names exit_code in
       inputs_loop inputs' names ec)%prog
  end.

(** The batch loop of [main]; its result is the argument of the final
    [sys.exit]. *)
Definition main_loop (inputs : list (list string)) (names : list string)
  : M Z :=
  inputs_loop inputs names 0.

End Batch.

(** ** Notions the properties are stated with *)








(** A job failed: its exit code is not [0]. *)
Definition nonzero (c : Z) : bool := negb (c =? 0).

(** The exit code the batch owes to the exit codes of its jobs: that of the
    last job that failed, [0] when none did. *)
Definition last_failure (codes : list Z) : Z :=
  List.last (List.filter nonzero codes) 0.

(** The answers of the encoder to the commands [cmds], run one after the
    other after the commands [hist]. *)
Fixpoint statuses (encoder : list (list string) -> list string -> result Z)
    (hist : list (list string)) (cmds : list (list string))
  : list (result Z) :=
  match cmds with
  | [] => []
  | cmd :: cmds' => encoder hist cmd :: statuses encoder (hist ++ [cmd]) cmds'
  end.

(** A base preset in the heap: the dictionary [d0] at [lb], and the entries
    [e0] that [dict] reads from its ["encode"] entry: those of the
    dictionary it names, or none when the key is missing or holds the empty
    string. *)
Definition preset_at (h : gmap loc (gmap string value)) (lb : loc)
    (d0 e0 : gmap string value) : Prop :=
  h !! lb = Some d0
  ∧ ((d0 !! "encode" = None ∨ d0 !! "encode" = Some (VStr "")) ∧ e0 = ∅
     ∨ ∃ le, d0 !! "encode" = Some (VDict le) ∧ h !! le = Some e0).

(** An override that [if] takes as false. *)
Definition falsy_int (o : option Z) : bool :=
  match o with
  | Some n => n =? 0
  | None => true
  end.

Definition falsy_str (o : option string) : bool :=
  match o with
  | Some s => String.eqb s ""
  | None => true
  end.

(** The command line with every false override of a field other than [crf]
    taken away. *)
Definition drop_falsy (a : Namespace) : Namespace :=
  {| dry_run := dry_run a;
     width := if falsy_int (width a) then None else width a;
     height := if falsy_int (height a) then None else height a;
     fps := if falsy_int (fps a) then None else fps a;
     strategy := if falsy_str (strategy a) then None else strategy a;
     mode := if falsy_str (mode a) then None else mode a;
     video_bitrate :=
       if falsy_str (video_bitrate a) then None else video_bitrate a;
     crf := crf a;
     x264_preset := if falsy_str (x264_preset a) then None else x264_preset a;
     audio_bitrate :=
       if falsy_str (audio_bitrate a) then None else audio_bitrate a |}.

(** An entry is matched by one of the patterns of [VIDEO_EXTS]. *)
Definition is_video (p : list string) : bool :=
  existsb (fun ext => matches ext p) VIDEO_EXTS.

(** What [if o: d[k] = o] makes of the entries [d]. *)
Definition upd_int (o : option Z) (k : string) (d : gmap string value)
  : gmap string value :=
  match o with
  | Some n => if n =? 0 then d else <[k := VInt n]> d
  | None => d
  end.

Definition upd_str (o : option string) (k : string) (d : gmap string value)
  : gmap string value :=
  match o with
  | Some s => if String.eqb s "" then d else <[k := VStr s]> d
  | None => d
  end.

(** The entries of the resolved ["encode"] dictionary, from those of the
    base, [e0]. *)
Definition merged_encode (e0 : gmap string value) (a : Namespace)
  : gmap string value :=
  let e := upd_str (video_bitrate a) "video_bitrate"
             (upd_str (mode a) "mode" e0) in
  upd_str (x264_preset a) "x264_preset"
    match crf a with
    | Some c => <["crf" := VInt c]> (<["mode" := VStr "crf"]> e)
    | None => e
    end.

(** The entries of the resolved preset, from those of the base, [d0]; its
    ["encode"] entry is the address [enc]. *)
Definition merged_preset (d0 : gmap string value) (a : Namespace) (enc : loc)
  : gmap string value :=
  upd_str (audio_bitrate a) "audio_bitrate"
    (<["encode" := VDict enc]>
       (upd_str (strategy a) "strategy"
          (upd_int (fps a) "fps"
             (upd_int (height a) "height"
                (upd_int (width a) "width" d0))))).

(** [st] extends [st0]: every dictionary of [st0] is in [st] with the same
    entries, and nothing was printed or run in between. *)
Definition extends (st0 st : state) : Prop :=
  (forall l d, st_heap st0 !! l = Some d -> st_heap st !! l = Some d)
  /\ st_calls st = st_calls st0
  /\ st_stdout st = st_stdout st0.

(** From any extension of [st0] the computation [m] reaches an extension of
    [st0], and a value it returns satisfies [Q]. *)
Definition keeps (st0 : state) {A} (m : M A) (Q : A -> Prop) : Prop :=
  forall st st' r,
    extends st0 st -> m st = (st', r) ->
    extends st0 st' /\ forall a, r = Ok a -> Q a.

(** The address [l] names no dictionary of [st0]. *)
Definition new_loc (st0 : state) (l : loc) : Prop := st_heap st0 !! l = None.

(** A decimal numeral is made of digits and, in front, a minus sign. *)
Definition numeral_char (c : ascii) : Prop := is_digit c = true \/ c = "-"%char.

(** The number a numeral denotes, read digit by digit after [acc]. *)
Fixpoint uint_value (d : Decimal.uint) (acc : Z) : Z :=
  match d with
  | Decimal.Nil => acc
  | Decimal.D0 l => uint_value l (10 * acc)
  | Decimal.D1 l => uint_value l (10 * acc + 1)
  | Decimal.D2 l => uint_value l (10 * acc + 2)
  | Decimal.D3 l => uint_value l (10 * acc + 3)
  | Decimal.D4 l => uint_value l (10 * acc + 4)
  | Decimal.D5 l => uint_value l (10 * acc + 5)
  | Decimal.D6 l => uint_value l (10 * acc + 6)
  | Decimal.D7 l => uint_value l (10 * acc + 7)
  | Decimal.D8 l => uint_value l (10 * acc + 8)
  | Decimal.D9 l => uint_value l (10 * acc + 9)
  end.

(** The text holds no slash. *)
Definition no_slash (s : string) : Prop := "/"%char ∉ list_ascii_of_string s.

(** The heap of [st1] holds every dictionary of [st], unchanged: [st1] is a
    state that jobs run from [st] can have reached. *)
Definition later_state (st st1 : state) : Prop :=
  forall l d, st_heap st !! l = Some d -> st_heap st1 !! l = Some d.

(** ** Sample data *)

Definition sample_reel : gmap string value :=
  <["width" := VInt 1080]>
    (<["height" := VInt 1920]>
       (<["strategy" := VStr "cover"]> (<["encode" := VDict 1%nat]> ∅))).

Definition sample_reel_encode : gmap string value :=
  <["mode" := VStr "bitrate"]> (<["video_bitrate" := VStr "6000k"]> ∅).

Definition sample_stretch : gmap string value :=
  <["width" := VInt 1080]>
    (<["height" := VInt 1920]> (<["strategy" := VStr "stretch"]> ∅)).

Definition sample_heap : gmap loc (gmap string value) :=
  <[0%nat := sample_reel]>
    (<[1%nat := sample_reel_encode]> (<[2%nat := sample_stretch]> ∅)).

Definition sample_presets : gmap string value :=
  <["reel" := VDict 0%nat]> (<["stretch" := VDict 2%nat]> ∅).

Definition sample_state : state := State sample_heap [] [].

Definition no_overrides : Namespace :=
  {| dry_run := false; width := None; height := None; fps := None;
     strategy := None; mode := None; video_bitrate := None; crf := None;
     x264_preset := None; audio_bitrate := None |}.

(** [--mode bitrate --crf 0 --width 0 --audio-bitrate ""] *)
Definition sample_overrides : Namespace :=
  {| dry_run := false; width := Some 0; height := None; fps := None;
     strategy := None; mode := Some "bitrate"; video_bitrate := None;
     crf := Some 0; x264_preset := None; audio_bitrate := Some "" |}.

(** An encoder that fails, with exit code [3], on its second command only. *)
Definition second_fails (hist : list (list string)) (cmd : list string)
  : result Z :=
  Ok (if (length hist =? 1)%nat then 3 else 0).

(** An encoder that always fails, with exit code [1]. *)
Definition always_fails (hist : list (list string)) (cmd : list string)
  : result Z :=
  Ok 1.

(** A presets file whose only preset has no width and a negative height. *)
Definition sample_bad_doc : json :=
  JObject [("bad", JObject [("height", JInt (-1)); ("vcodec", JStr "h999")])].

(** The width, height and frame rate [build_cmd] reads from a preset before
    it builds the filter. *)
Definition sizes_of (p : gmap string value) : result (Z * Z * Z) :=
  (let? w := getitem p "width" in
   let? width := py_int w in
   let? ht := getitem p "height" in
   let? height := py_int ht in
   let? fps := py_int (get p "fps" (VInt 30)) in
   Ok (width, height, fps))%res.

(** A preset whose encode dictionary has a mode that is neither bitrate nor
    crf. *)
Definition sample_vbr : gmap string value :=
  <["width" := VInt 1080]>
    (<["height" := VInt 1920]> (<["encode" := VDict 1%nat]> ∅)).

Definition sample_vbr_encode : gmap string value := <["mode" := VStr "vbr"]> ∅.

Definition sample_vbr_state : state :=
  State (<[0%nat := sample_vbr]> (<[1%nat := sample_vbr_encode]> ∅)) [] [].

Definition sample_vbr_presets : gmap string value := <["vbr" := VDict 0%nat]> ∅.

(** * Properties *)

(** ** The Python operations on sample inputs *)

Example parse_int_examples :
  map parse_int ["600"; " 600 "; "+5"; "-5"; "1_000"; "007"; "-0"]
    = map Some [600; 600; 5; -5; 1000; 7; 0]
  /\ map parse_int [""; " "; "_1"; "1__0"; "1_"; "0x10"; "6.0"; "+ 5"; "--5"; "+"]
    = map (fun _ => None) (seq 0 10).
Proof. split; reflexivity. Qed.

Example str_of_int_examples :
  map str_of_int [0; 7; -5; 12000] = ["0"; "7"; "-5"; "12000"].
Proof. reflexivity. Qed.

Example path_examples :
  map path_stem [["a.mp4"]; ["d"; ".mp4"]; ["a."]; ["a.b.c"]; ["a"]; [".a.b"]]
    = ["a"; ".mp4"; "a."; "a.b"; "a"; ".a"]
  /\ path_str (path_div ["outputs"] "clip_reel.mp4") = "outputs/clip_reel.mp4"
  /\ path_div ["outputs"] "/tmp//x/./y" = ["/"; "tmp"; "x"; "y"]
  /\ path_str ["/"; "a"; "b"] = "/a/b".
Proof. repeat split; reflexivity. Qed.

(** ** Rate-control arguments *)

Lemma rbind_Ok {A B} (r : result A) (k : A -> result B) a :
  r = Ok a -> rbind r k = k a.
Proof. intros ->. reflexivity. Qed.

Lemma rbind_Raise {A B} (r : result A) (k : A -> result B) e :
  r = Raise e -> rbind r k = Raise e.
Proof. intros ->. reflexivity. Qed.

Lemma bind_run {A B} (m : M A) (k : A -> M B) st st1 a :
  m st = (st1, Ok a) -> bind m k st = k a st1.
Proof. unfold bind. intros ->. reflexivity. Qed.

Lemma bind_raise {A B} (m : M A) (k : A -> M B) st st1 e :
  m st = (st1, Raise e) -> bind m k st = (st1, Raise e).
Proof. unfold bind. intros ->. reflexivity. Qed.

Lemma bind_inv {A B} (m : M A) (k : A -> M B) st st' r :
  bind m k st = (st', r) ->
  (exists st1 a, m st = (st1, Ok a) /\ k a st1 = (st', r))
  \/ (exists e, m st = (st', Raise e) /\ r = Raise e).
Proof.
  unfold bind. destruct (m st) as [st1 [a|e]].
  - intros H. left. eauto.
  - intros [= <- <-]. right. eauto.
Qed.

(** In bitrate mode with a textual bitrate the result is decided by the text
    before the last character alone. *)
Lemma build_video_args_bitrate enc s :
  py_lower (get enc "mode" (VStr "bitrate")) = Ok "bitrate" ->
  get enc "video_bitrate" (VStr "5000k") = VStr s ->
  build_video_args enc =
    match parse_int (drop_last s) with
    | Some n =>
        Ok [VStr "-preset"; get enc "x264_preset" (VStr "medium");
            VStr "-b:v"; VStr s; VStr "-maxrate"; VStr s;
            VStr "-bufsize"; VStr (str_of_int (n * 2) +:+ "k")]
    | None => Raise invalid_literal
    end.
Proof.
  intros Hmode Hvb. unfold build_video_args.
  rewrite (rbind_Ok _ _ _ Hmode). simpl String.eqb. cbv iota.
  rewrite Hvb. simpl py_drop_last. cbn [rbind].
  unfold int_of_str. destruct (parse_int (drop_last s)); reflexivity.
Qed.

Lemma drop_last_snoc s c :
  drop_last (s +:+ String c "") = s.
Proof.
  unfold drop_last.
  assert (H : forall t, list_ascii_of_string (t +:+ String c "")
                        = list_ascii_of_string t ++ [c]).
  { induction t as [|a t IH]; simpl; [reflexivity | by rewrite IH]. }
  rewrite H, removelast_last. apply string_of_list_ascii_of_string.
Qed.

(** C4: with the bitrate ["6M"] the builder keeps ["6M"] for [-b:v] and
    [-maxrate] and doubles the number, but writes the buffer size with the
    suffix [k]: ["12k"], where the claim asks for ["12M"]. *)
Theorem bufsize_suffix_is_always_k :
  build_video_args
    (<["mode" := VStr "bitrate"]> (<["video_bitrate" := VStr "6M"]> ∅))
  = Ok [VStr "-preset"; VStr "medium"; VStr "-b:v"; VStr "6M";
        VStr "-maxrate"; VStr "6M"; VStr "-bufsize"; VStr "12k"].
Proof.
  rewrite (build_video_args_bitrate _ "6M"); reflexivity.
Qed.

(** C5, as the claim states it, fails: the bitrate ["6000x"] has a suffix
    that is no unit, and the builder returns arguments for it (with the
    buffer size ["12000k"]) instead of an error. *)
Lemma unknown_suffix_accepted :
  ~ (exists e,
       build_video_args
         (<["mode" := VStr "bitrate"]>
            (<["video_bitrate" := VStr "6000x"]> ∅)) = Raise e)
  /\ build_video_args
       (<["mode" := VStr "bitrate"]> (<["video_bitrate" := VStr "6000x"]> ∅))
     = Ok [VStr "-preset"; VStr "medium"; VStr "-b:v"; VStr "6000x";
           VStr "-maxrate"; VStr "6000x"; VStr "-bufsize"; VStr "12000k"].
Proof.
  assert (H : build_video_args
       (<["mode" := VStr "bitrate"]> (<["video_bitrate" := VStr "6000x"]> ∅))
     = Ok [VStr "-preset"; VStr "medium"; VStr "-b:v"; VStr "6000x";
           VStr "-maxrate"; VStr "6000x"; VStr "-bufsize"; VStr "12000k"]).
  { rewrite (build_video_args_bitrate _ "6000x"); reflexivity. }
  split; [ intros [e He]; rewrite H in He; discriminate | exact H ].
Qed.

(** C5, amended: for a bitrate-mode record whose bitrate is the text [s]
    followed by one more character [c], the builder never looks at [c]: it
    raises the ValueError of [int] exactly when [s] is not an integer
    numeral, and returns rate-control arguments otherwise, whatever [c]
    is. *)
Theorem bitrate_suffix_unchecked enc s c :
  py_lower (get enc "mode" (VStr "bitrate")) = Ok "bitrate" ->
  get enc "video_bitrate" (VStr "5000k") = VStr (s +:+ String c "") ->
  (parse_int s = None -> build_video_args enc = Raise invalid_literal)
  /\ (forall n, parse_int s = Some n ->
        exists args, build_video_args enc = Ok args
          /\ VStr (s +:+ String c "") ∈ args)
  /\ (forall enc' c',
        py_lower (get enc' "mode" (VStr "bitrate")) = Ok "bitrate" ->
        get enc' "video_bitrate" (VStr "5000k") = VStr (s +:+ String c' "") ->
        (exists e, build_video_args enc = Raise e)
        <-> (exists e, build_video_args enc' = Raise e)).
Proof.
  intros Hmode Hvb.
  pose proof (build_video_args_bitrate enc _ Hmode Hvb) as H.
  rewrite drop_last_snoc in H.
  split; [| split].
  - intros Hs. rewrite Hs in H. exact H.
  - intros n Hs. rewrite Hs in H. eexists; split; [exact H |].
    set_solver.
  - intros enc' c' Hmode' Hvb'.
    pose proof (build_video_args_bitrate enc' _ Hmode' Hvb') as H'.
    rewrite drop_last_snoc in H'. rewrite H, H'.
    destruct (parse_int s); split; intros [e He]; try discriminate; eauto.
Qed.

Lemma bitrate_suffix_unchecked_witness :
  (exists args,
     build_video_args
       (<["mode" := VStr "Bitrate"]> (<["video_bitrate" := VStr "6000k"]> ∅))
     = Ok args /\ VStr "6000k" ∈ args)
  /\ build_video_args
       (<["mode" := VStr "bitrate"]> (<["video_bitrate" := VStr "fastk"]> ∅))
     = Raise invalid_literal.
Proof.
  split.
  - destruct (bitrate_suffix_unchecked
                (<["mode" := VStr "Bitrate"]>
                   (<["video_bitrate" := VStr "6000k"]> ∅)) "6000" "k"%char)
      as (_ & H & _); [reflexivity | reflexivity |].
    exact (H 6000 eq_refl).
  - destruct (bitrate_suffix_unchecked
                (<["mode" := VStr "bitrate"]>
                   (<["video_bitrate" := VStr "fastk"]> ∅)) "fast" "k"%char)
      as (H & _); [reflexivity | reflexivity |].
    exact (H eq_refl).
Defined.

(** ** Loading and using presets *)

Lemma getitem_Some (d : gmap string value) k v :
  d !! k = Some v -> getitem d k = Ok v.
Proof. unfold getitem. intros ->. reflexivity. Qed.

Lemma get_Some (d : gmap string value) k v default :
  d !! k = Some v -> get d k default = v.
Proof. unfold get. intros ->. reflexivity. Qed.

Lemma get_None (d : gmap string value) k default :
  d !! k = None -> get d k default = default.
Proof. unfold get. intros ->. reflexivity. Qed.

Lemma json_value_total :
  forall j st, exists st' v, json_value j st = (st', Ok v).
Proof.
  fix IH 1. intros [| | | |members] st; try (eexists _, _; reflexivity).
  cbn [json_value].
  set (fill := fix fill (ms : list (string * json)) (d : gmap string value)
            : M (gmap string value) :=
            match ms with
            | [] => ret d
            | (k, j') :: ms' =>
                let! v := json_value j' in fill ms' (<[k := v]> d)
            end%prog).
  assert (Hfill : forall d st, exists st' d', fill members d st = (st', Ok d')).
  { induction members as [|[k j'] ms IHms]; intros d st1.
    - eexists _, _. reflexivity.
    - cbn [fill]. destruct (IH j' st1) as (st2 & v & Hv).
      rewrite (bind_run _ _ _ _ _ Hv). apply IHms. }
  destruct (Hfill ∅ st) as (st1 & d & Hd).
  rewrite (bind_run _ _ _ _ _ Hd). eexists _, _. reflexivity.
Qed.

(** C7, as the claim states it, fails: the document [sample_bad_doc], whose
    preset has no width, a negative height and an unknown codec, is loaded
    without an error; the missing width surfaces only when the command is
    built from the loaded preset. *)
Lemma invalid_preset_loads :
  exists st' l lp p,
    load_presets ["presets.json"] (Parsed sample_bad_doc) (State ∅ [] [])
    = (st', Ok (VDict l))
    /\ st_heap st' !! l = Some (<["bad" := VDict lp]> ∅)
    /\ st_heap st' !! lp = Some p
    /\ p !! "width" = None
    /\ p !! "height" = Some (VInt (-1))
    /\ build_cmd (st_heap st') ["clip.mp4"] ["outputs"; "clip_bad.mp4"] p
       = Raise (KeyError "width").
Proof.
  eexists _, _, _, _.
  split; [vm_compute; reflexivity |].
  split; [vm_compute; reflexivity |].
  split; [vm_compute; reflexivity |].
  repeat split; vm_compute; reflexivity.
Qed.

(** C7, amended: loading validates nothing.  Every document that parses is
    loaded without an error, whatever its presets hold; a preset without
    width or height fails only at use, with a KeyError from [build_cmd];
    and a width and height of any sign are accepted there and reach the
    filter expression. *)
Theorem load_presets_validates_nothing :
  (forall preset_path doc st, exists st' v,
      load_presets preset_path (Parsed doc) st = (st', Ok v))
  /\ (forall h infile outfile (p : gmap string value),
        p !! "width" = None ->
        build_cmd h infile outfile p = Raise (KeyError "width"))
  /\ (forall h infile outfile (p : gmap string value) w,
        p !! "width" = Some (VInt w) -> p !! "height" = None ->
        build_cmd h infile outfile p = Raise (KeyError "height"))
  /\ (forall h infile outfile w ht,
        exists vf rest,
          build_filter w ht (VStr "cover") (VStr "black") = Ok vf
          /\ build_cmd h infile outfile
               (<["width" := VInt w]> (<["height" := VInt ht]> ∅))
             = Ok ([VStr "ffmpeg"; VStr "-y"; VStr "-i";
                    VStr (path_str infile); VStr "-vf"; VStr vf] ++ rest)).
Proof.
  split; [intros preset_path doc st; apply json_value_total |].
  split; [| split].
  - intros h infile outfile p Hw. unfold build_cmd, getitem.
    rewrite Hw. reflexivity.
  - intros h infile outfile p w Hw Hh. unfold build_cmd, getitem.
    rewrite Hw, Hh. reflexivity.
  - intros h infile outfile w ht. eexists _, _. split; [reflexivity |].
    unfold build_cmd.
    rewrite (getitem_Some _ "width" (VInt w)) by (by simplify_map_eq).
    rewrite (getitem_Some _ "height" (VInt ht)) by (by simplify_map_eq).
    cbn [rbind py_int].
    rewrite !get_None by (by simplify_map_eq).
    cbn [rbind py_int]. unfold encode_of.
    replace ((<["width" := VInt w]> (<["height" := VInt ht]> ∅)
                : gmap string value) !! "encode")
      with (@None value) by (by simplify_map_eq).
    reflexivity.
Qed.

Lemma load_presets_validates_nothing_witness :
  (exists st' v,
     load_presets ["presets.json"] (Parsed sample_bad_doc) (State ∅ [] [])
     = (st', Ok v))
  /\ build_cmd ∅ ["clip.mp4"] ["outputs"; "clip_bad.mp4"]
       (<["height" := VInt (-1)]> ∅)
     = Raise (KeyError "width").
Proof.
  destruct load_presets_validates_nothing as (Hload & Hwidth & _).
  split; [apply Hload | apply Hwidth; reflexivity].
Defined.

(** ** The filter graph *)

Lemma chars_app s t :
  list_ascii_of_string (s +:+ t)
  = list_ascii_of_string s ++ list_ascii_of_string t.
Proof. induction s as [|a s IH]; simpl; [reflexivity | by rewrite IH]. Qed.

Lemma string_of_uint_chars d :
  Forall numeral_char (list_ascii_of_string (NilEmpty.string_of_uint d)).
Proof.
  induction d; simpl; constructor; auto; left; reflexivity.
Qed.

Lemma str_of_int_chars n :
  Forall numeral_char (list_ascii_of_string (str_of_int n)).
Proof.
  unfold str_of_int, NilZero.string_of_int, NilZero.string_of_uint.
  destruct (Z.to_int n) as [d|d].
  - destruct d; try apply (string_of_uint_chars (Decimal.D0 _));
      try (constructor; [left; reflexivity | apply string_of_uint_chars]).
    constructor; [left; reflexivity | constructor].
  - simpl. constructor; [right; reflexivity |].
    destruct d; try (constructor; [left; reflexivity | apply string_of_uint_chars]).
    constructor; [left; reflexivity | constructor].
Qed.


Lemma split_on_no_sep sep cs :
  sep ∉ cs -> split_on sep cs = [cs].
Proof.
  induction cs as [|c cs IH]; intros Hn; simpl; [reflexivity |].
  apply not_elem_of_cons in Hn as [Hne Hn].
  destruct (Ascii.eqb_spec c sep); [congruence |].
  by rewrite IH.
Qed.










Lemma eq_str_false v s : v <> VStr s -> eq_str v s = false.
Proof.
  destruct v as [| | |t|]; simpl; try reflexivity.
  intros Hne. apply String.eqb_neq. congruence.
Qed.




(** ** The order of paths and the collected inputs *)

Global Instance path_le_refl : Reflexive path_le.
Proof. intros p. induction p as [|a p IH]; simpl; [exact I | right; auto]. Qed.

Global Instance path_le_trans : Transitive path_le.
Proof.
  intros p. induction p as [|a p IH]; intros [|b q] [|c r]; simpl;
    try tauto.
  intros [[Hab Hle]|[-> Hpq]] [[Hbc Hle']|[-> Hqr]].
  - left. split.
    + intros ->. apply Hab. by apply (anti_symm String.le).
    + by etrans.
  - left. split; done.
  - left. split; done.
  - right. split; [done | by eapply IH].
Qed.

Global Instance path_le_antisym : AntiSymm (=) path_le.
Proof.
  intros p. induction p as [|a p IH]; intros [|b q]; simpl; try tauto.
  intros [[Hab Hle]|[-> Hpq]] [[Hba Hle']|[Heq Hqp]]; try congruence.
  - exfalso. apply Hab. by apply (anti_symm String.le).
  - f_equal. by apply IH.
Qed.

Global Instance path_le_total : Total path_le.
Proof.
  intros p. induction p as [|a p IH]; intros [|b q]; simpl; try tauto.
  destruct (decide (a = b)) as [->|Hne].
  - destruct (IH q); [left | right]; right; done.
  - destruct (total String.le a b); [left | right]; left; split; congruence.
Qed.

(** Whatever procedure sorts a list of paths, the result is the same. *)
Lemma sorted_paths_unique (l l' : list (list string)) :
  Sorted path_le l' -> l' ≡ₚ l -> l' = sorted l.
Proof.
  intros Hs Hp. apply (Sorted_unique path_le); [done | |].
  - apply Sorted_merge_sort; apply _.
  - unfold sorted. by rewrite merge_sort_Permutation.
Qed.

Lemma sorted_perm (l l' : list (list string)) :
  l ≡ₚ l' -> sorted l = sorted l'.
Proof.
  intros Hp. apply sorted_paths_unique.
  - apply Sorted_merge_sort; apply _.
  - unfold sorted. by rewrite merge_sort_Permutation.
Qed.

Lemma ends_with_suffix suffix s :
  ends_with suffix s = true <-> exists pre, s = pre ++ suffix.
Proof.
  induction s as [|c s IH]; simpl.
  - destruct (decide ([] = suffix)) as [<-|Hne].
    + split; [exists []; reflexivity | reflexivity].
    + split; [discriminate |]. intros [pre H].
      symmetry in H. apply app_eq_nil in H as [_ ->]. done.
  - destruct (decide (c :: s = suffix)) as [<-|Hne].
    + split; [exists []; reflexivity | reflexivity].
    + rewrite IH. split.
      * intros [pre ->]. exists (c :: pre). reflexivity.
      * intros [[|c' pre] H]; simpl in H; [congruence |].
        injection H as -> ->. by exists pre.
Qed.

(** Two suffixes of one name: the shorter is a suffix of the longer. *)
Lemma ends_with_chain a b s :
  ends_with a s = true -> ends_with b s = true ->
  ends_with a b = true \/ ends_with b a = true.
Proof.
  rewrite !ends_with_suffix. intros [p1 H1] [p2 H2]. subst s.
  revert p2 H2. induction p1 as [|c p1 IH]; intros p2 H2; simpl in H2.
  - right. exists p2. done.
  - destruct p2 as [|c' p2]; simpl in H2.
    + left. exists (c :: p1). done.
    + injection H2 as _ H2. by apply (IH p2).
Qed.

(** No name matches two patterns of [VIDEO_EXTS]. *)
Lemma matches_one_ext e1 e2 p :
  e1 ∈ VIDEO_EXTS -> e2 ∈ VIDEO_EXTS ->
  matches e1 p = true -> matches e2 p = true -> e1 = e2.
Proof.
  unfold matches. intros H1 H2 M1 M2.
  destruct (ends_with_chain _ _ _ M1 M2) as [H|H]; revert H;
    unfold VIDEO_EXTS in H1, H2;
    rewrite !elem_of_cons, elem_of_nil in H1, H2;
    destruct H1 as [->|[->|[->|[->|[->|[->|[]]]]]]];
    destruct H2 as [->|[->|[->|[->|[->|[->|[]]]]]]];
    vm_compute; congruence.
Qed.

Lemma filter_or_disjoint {A} (f g : A -> bool) (l : list A) :
  (forall x, f x = true -> g x = true -> False) ->
  List.filter (fun x => f x || g x) l ≡ₚ List.filter f l ++ List.filter g l.
Proof.
  intros Hfg. induction l as [|x l IH]; simpl; [reflexivity |].
  destruct (f x) eqn:Hf, (g x) eqn:Hg; simpl.
  - destruct (Hfg x Hf Hg).
  - by rewrite IH.
  - rewrite IH. apply Permutation_middle.
  - exact IH.
Qed.

(** Globbing pattern by pattern collects each entry that some pattern
    matches once, when no entry matches two patterns. *)
Lemma flat_map_filter_exts {A} (m : string -> A -> bool) (E : list string)
    (l : list A) :
  NoDup E ->
  (forall e1 e2 x, e1 ∈ E -> e2 ∈ E ->
     m e1 x = true -> m e2 x = true -> e1 = e2) ->
  flat_map (fun e => List.filter (m e) l) E
    ≡ₚ List.filter (fun x => existsb (fun e => m e x) E) l.
Proof.
  induction E as [|e E IH]; intros Hnd Hone; simpl.
  - induction l as [|x l IHl]; simpl; [reflexivity | exact IHl].
  - apply NoDup_cons in Hnd as [Hne Hnd].
    rewrite IH; [| done |].
    + symmetry. apply filter_or_disjoint.
      intros x Hx Hex. apply existsb_exists in Hex as (e' & Hin & He').
      apply list_elem_of_In in Hin.
      assert (e = e') as -> by (apply (Hone e e' x); set_solver).
      done.
    + intros e1 e2 x H1 H2. apply Hone; set_solver.
Qed.

Lemma rglob_all_exts exts input_path tree :
  exts ≡ₚ VIDEO_EXTS ->
  flat_map (rglob input_path tree) exts
    ≡ₚ List.filter is_video (entries input_path tree).
Proof.
  intros Hp. rewrite (Permutation_flat_map _ Hp).
  unfold rglob, is_video. apply flat_map_filter_exts.
  - apply (bool_decide_unpack _). vm_compute. exact I.
  - intros e1 e2 x. apply matches_one_ext.
Qed.

Lemma filter_perm {A} (f : A -> bool) (l l' : list A) :
  l ≡ₚ l' -> List.filter f l ≡ₚ List.filter f l'.
Proof.
  induction 1 as [|x l l' _ IH|x y l|l l' l'' _ IH1 _ IH2]; simpl.
  - reflexivity.
  - destruct (f x); [by constructor | done].
  - destruct (f x), (f y); try reflexivity. apply perm_swap.
  - by etrans.
Qed.

Lemma collect_inputs_dir exts input_path children st :
  exists st',
    collect_inputs exts input_path (Some (Dir children)) st
    = (st', Ok (sorted (flat_map (rglob input_path (Dir children)) exts))).
Proof.
  unfold collect_inputs.
  destruct (flat_map (rglob input_path (Dir children)) exts);
    eexists; reflexivity.
Qed.

(** C10: for a directory, whatever the order in which the set of
    extensions is iterated, [collect_inputs] returns a list that is sorted
    in the order of paths and holds exactly the entries below the directory
    whose name ends in an extension of [VIDEO_EXTS]; and the list is the
    same for every traversal order of the same set of entries, so the order
    of the jobs is fixed by that set. *)
Theorem collect_inputs_sorted_deterministic exts input_path children st :
  exts ≡ₚ VIDEO_EXTS ->
  exists st' files,
    collect_inputs exts input_path (Some (Dir children)) st = (st', Ok files)
    /\ Sorted path_le files
    /\ files ≡ₚ List.filter is_video (entries input_path (Dir children))
    /\ forall exts' children' st2,
         exts' ≡ₚ VIDEO_EXTS ->
         entries input_path (Dir children')
           ≡ₚ entries input_path (Dir children) ->
         (collect_inputs exts' input_path (Some (Dir children')) st2).2
         = Ok files.
Proof.
  intros Hexts.
  destruct (collect_inputs_dir exts input_path children st) as [st' Hrun].
  exists st', (sorted (flat_map (rglob input_path (Dir children)) exts)).
  split; [exact Hrun |]. split; [| split].
  - apply Sorted_merge_sort; apply _.
  - unfold sorted. rewrite merge_sort_Permutation.
    by apply rglob_all_exts.
  - intros exts' children' st2 Hexts' Hsame.
    destruct (collect_inputs_dir exts' input_path children' st2) as [st2' ->].
    simpl. f_equal. apply sorted_perm.
    rewrite !rglob_all_exts by done. by apply filter_perm.
Qed.

Lemma collect_inputs_sorted_deterministic_witness :
  exists st' files,
    collect_inputs [".webm"; ".avi"; ".mkv"; ".m4v"; ".mov"; ".mp4"] ["in"]
      (Some (Dir [("b.mp4", File);
                  ("sub", Dir [("a.mov", File); ("notes.txt", File)]);
                  ("a-b.webm", File)]))
      (State ∅ [] [])
    = (st', Ok files)
    /\ files = [["in"; "a-b.webm"]; ["in"; "b.mp4"]; ["in"; "sub"; "a.mov"]].
Proof.
  destruct (collect_inputs_sorted_deterministic
              [".webm"; ".avi"; ".mkv"; ".m4v"; ".mov"; ".mp4"] ["in"]
              [("b.mp4", File);
               ("sub", Dir [("a.mov", File); ("notes.txt", File)]);
               ("a-b.webm", File)]
              (State ∅ [] []))
    as (st' & files & Hrun & _).
  { unfold VIDEO_EXTS. apply Permutation_rev. }
  exists st', files. split; [exact Hrun |].
  vm_compute in Hrun. congruence.
Defined.

(** ** Running the monad *)

Lemma read_run h c o l d :
  h !! l = Some d -> read l (State h c o) = (State h c o, Ok d).
Proof. unfold read. simpl. intros ->. reflexivity. Qed.

Lemma setitem_run h c o l d k v :
  h !! l = Some d ->
  setitem l k v (State h c o) = (State (<[l := <[k := v]> d]> h) c o, Ok tt).
Proof. unfold setitem. simpl. intros ->. reflexivity. Qed.

Lemma set_if_int_run h c o l d x k :
  h !! l = Some d ->
  set_if_int x l k (State h c o) = (State (<[l := upd_int x k d]> h) c o, Ok tt).
Proof.
  intros Hl. unfold set_if_int, upd_int.
  destruct x as [n|]; [destruct (n =? 0) |];
    rewrite ?(setitem_run _ _ _ _ _ _ _ Hl), ?insert_id by done; reflexivity.
Qed.

Lemma set_if_str_run h c o l d x k :
  h !! l = Some d ->
  set_if_str x l k (State h c o) = (State (<[l := upd_str x k d]> h) c o, Ok tt).
Proof.
  intros Hl. unfold set_if_str, upd_str.
  destruct x as [s|]; [destruct (String.eqb s "") |];
    rewrite ?(setitem_run _ _ _ _ _ _ _ Hl), ?insert_id by done; reflexivity.
Qed.

Lemma dict_of_run h c o l d :
  h !! l = Some d ->
  dict_of (VDict l) (State h c o)
  = (State (<[fresh (dom h) := d]> h) c o, Ok (fresh (dom h))).
Proof.
  intros Hl. unfold dict_of.
  rewrite (bind_run _ _ _ _ _ (read_run h c o l d Hl)). reflexivity.
Qed.

Lemma fresh_lookup (h : gmap loc (gmap string value)) :
  h !! fresh (dom h) = None.
Proof. apply not_elem_of_dom. apply is_fresh. Qed.

Lemma upd_int_other x k d k' : k <> k' -> upd_int x k d !! k' = d !! k'.
Proof.
  intros Hk. unfold upd_int. destruct x as [n|]; [destruct (n =? 0) |];
    by rewrite ?lookup_insert_ne.
Qed.

Lemma upd_str_other x k d k' : k <> k' -> upd_str x k d !! k' = d !! k'.
Proof.
  intros Hk. unfold upd_str. destruct x as [s|]; [destruct (String.eqb s "") |];
    by rewrite ?lookup_insert_ne.
Qed.

(** The run of [apply_overrides] on a base preset that is in the heap: the
    result is a new dictionary with the entries [merged_preset], whose
    ["encode"] entry is another new dictionary with the entries
    [merged_encode]; the heap is otherwise extended only. *)
Lemma apply_overrides_run h c o lb d0 e0 a :
  preset_at h lb d0 e0 ->
  exists h' out enc,
    apply_overrides (VDict lb) a (State h c o) = (State h' c o, Ok out)
    /\ h !! out = None /\ h !! enc = None /\ out <> enc
    /\ h' !! out = Some (merged_preset d0 a enc)
    /\ h' !! enc = Some (merged_encode e0 a)
    /\ (forall l d, h !! l = Some d -> h' !! l = Some d).
Proof.
  intros [Hlb Henc]. unfold apply_overrides.
  rewrite (bind_run _ _ _ _ _ (dict_of_run h c o lb d0 Hlb)).
  set (out := fresh (dom h)).
  assert (Hout : h !! out = None) by apply fresh_lookup.
  erewrite bind_run; [| apply set_if_int_run, lookup_insert_eq].
  erewrite bind_run; [| apply set_if_int_run, lookup_insert_eq].
  erewrite bind_run; [| apply set_if_int_run, lookup_insert_eq].
  erewrite bind_run; [| apply set_if_str_run, lookup_insert_eq].
  erewrite bind_run; [| apply read_run, lookup_insert_eq].
  set (d4 := upd_str (strategy a) "strategy" _).
  set (h1 := <[out := d4]> _).
  assert (Hh1 : forall l, l <> out -> h1 !! l = h !! l).
  { intros l Hl. subst h1. by rewrite !lookup_insert_ne. }
  assert (Hd4 : d4 !! "encode" = d0 !! "encode").
  { subst d4. by rewrite upd_str_other, !upd_int_other. }
  erewrite bind_run; [| reflexivity]. cbn [st_heap set_heap st_calls st_stdout].
  set (empty := fresh (dom h1)).
  assert (Hempty : h1 !! empty = None) by apply fresh_lookup.
  assert (Hoe : out <> empty).
  { intros Heq. rewrite <- Heq in Hempty. subst h1.
    by rewrite lookup_insert_eq in Hempty. }
  set (h2 := <[empty := ∅]> h1).
  assert (exists enc,
     dict_of (get d4 "encode" (VDict empty)) (State h2 c o)
     = (State (<[enc := e0]> h2) c o, Ok enc) /\ h2 !! enc = None)
    as (enc & Hrun & Henc2).
  { exists (fresh (dom h2)). split; [| apply fresh_lookup].
    destruct Henc as [[[Hnone | Hstr] ->] | (le & Hsome & Hle)].
    - rewrite get_None by congruence.
      apply dict_of_run. subst h2. apply lookup_insert_eq.
    - rewrite (get_Some _ _ (VStr "")) by congruence. reflexivity.
    - rewrite (get_Some _ _ (VDict le)) by congruence.
      assert (Hlo : le <> out) by (intros Heq; rewrite Heq in Hle; congruence).
      assert (Hl1 : h1 !! le = Some e0) by (by rewrite Hh1).
      assert (Hlem : empty <> le)
        by (intros Heq; rewrite Heq in Hempty; congruence).
      apply dict_of_run. subst h2. by rewrite lookup_insert_ne. }
  rewrite (bind_run _ _ _ _ _ Hrun).
  assert (Hne : out <> enc).
  { intros Heq. rewrite <- Heq in Henc2. subst h2 h1.
    by rewrite lookup_insert_ne, lookup_insert_eq in Henc2. }
  assert (Hee : empty <> enc).
  { intros Heq. rewrite <- Heq in Henc2. subst h2.
    by rewrite lookup_insert_eq in Henc2. }
  erewrite bind_run; [| apply set_if_str_run, lookup_insert_eq].
  erewrite bind_run; [| apply set_if_str_run, lookup_insert_eq].
  set (e2 := upd_str (video_bitrate a) "video_bitrate" _).
  assert (exists h3,
     match crf a with
     | Some c0 =>
         (setitem enc "mode" (VStr "crf") ;; setitem enc "crf" (VInt c0))%prog
     | None => ret tt
     end (State (<[enc := e2]> (<[enc := upd_str (mode a) "mode" e0]>
                                  (<[enc := e0]> h2))) c o)
     = (State h3 c o, Ok tt)
     /\ h3 !! enc = Some match crf a with
                         | Some c0 =>
                             <["crf" := VInt c0]> (<["mode" := VStr "crf"]> e2)
                         | None => e2
                         end
     /\ forall l, l <> enc -> h3 !! l = h2 !! l) as (h3 & Hcrf & Hh3e & Hh3).
  { destruct (crf a) as [c0|].
    - eexists. split; [| split].
      + erewrite bind_run; [| apply setitem_run, lookup_insert_eq].
        apply setitem_run, lookup_insert_eq.
      + apply lookup_insert_eq.
      + intros l Hl. by rewrite !lookup_insert_ne.
    - eexists. split; [reflexivity | split].
      + apply lookup_insert_eq.
      + intros l Hl. by rewrite !lookup_insert_ne. }
  rewrite (bind_run _ _ _ _ _ Hcrf).
  erewrite bind_run; [| apply set_if_str_run, Hh3e].
  erewrite bind_run;
    [| apply setitem_run; rewrite lookup_insert_ne, Hh3 by done;
       subst h2 h1; rewrite lookup_insert_ne by done; apply lookup_insert_eq].
  erewrite bind_run; [| apply set_if_str_run, lookup_insert_eq].
  eexists _, out, enc. split; [reflexivity |].
  split; [done |]. split.
  { rewrite <- (Hh1 enc) by done. subst h2.
    by rewrite lookup_insert_ne in Henc2. }
  split; [done |]. split; [apply lookup_insert_eq |]. split.
  - rewrite !lookup_insert_ne by done. apply lookup_insert_eq.
  - intros l d Hl.
    assert (l <> out) by (intros ->; congruence).
    assert (l <> empty).
    { intros ->. rewrite Hh1 in Hempty by done. congruence. }
    assert (l <> enc).
    { intros ->. subst h2. rewrite lookup_insert_ne, Hh1 in Henc2 by done.
      congruence. }
    rewrite !lookup_insert_ne by done. rewrite Hh3 by done.
    subst h2. rewrite lookup_insert_ne by done. by rewrite Hh1.
Qed.

(** ** The frame of [apply_overrides] *)

Section Frame.

Variable st0 : state.

Lemma extends_refl : extends st0 st0.
Proof. repeat split; auto. Qed.

Lemma keeps_ret {A} (a : A) (Q : A -> Prop) : Q a -> keeps st0 (ret a) Q.
Proof. intros HQ st st' r He [= <- <-]. split; [done |]. by intros ? [= <-]. Qed.

Lemma keeps_raise {A} e (Q : A -> Prop) : keeps st0 (raise e) Q.
Proof. intros st st' r He [= <- <-]. split; [done |]. intros ? [=]. Qed.

Lemma keeps_bind {A B} (m : M A) (k : A -> M B) Q R :
  keeps st0 m Q -> (forall a, Q a -> keeps st0 (k a) R) ->
  keeps st0 (bind m k) R.
Proof.
  intros Hm Hk st st' r He Hrun.
  apply bind_inv in Hrun as [(st1 & a & H1 & H2) | (e & H1 & ->)].
  - destruct (Hm _ _ _ He H1) as [He1 Ha].
    eapply Hk; eauto.
  - destruct (Hm _ _ _ He H1) as [He1 _]. split; [done |]. intros ? [=].
Qed.

Lemma keeps_read l : keeps st0 (read l) (fun _ => True).
Proof.
  intros st st' r He. unfold read.
  destruct (st_heap st !! l); intros [= <- <-]; split; auto.
Qed.

Lemma keeps_alloc d : keeps st0 (alloc d) (new_loc st0).
Proof.
  intros [h c o] st' r (Hh & Hc & Ho). unfold alloc. simpl in *.
  intros [= <- <-].
  assert (Hf : h !! fresh (dom h) = None) by apply fresh_lookup.
  split.
  - repeat split; simpl; [| done | done].
    intros l d' Hl. rewrite lookup_insert_ne; [by apply Hh |].
    intros <-. apply Hh in Hl. congruence.
  - intros a [= <-]. unfold new_loc.
    destruct (st_heap st0 !! fresh (dom h)) eqn:E; [| done].
    apply Hh in E. congruence.
Qed.

Lemma keeps_setitem l k v :
  new_loc st0 l -> keeps st0 (setitem l k v) (fun _ => True).
Proof.
  intros Hnew [h c o] st' r (Hh & Hc & Ho). unfold setitem. simpl in *.
  destruct (h !! l) eqn:E; intros [= <- <-]; (split; [| done]).
  - repeat split; simpl; [| done | done].
    intros l' d' Hl. rewrite lookup_insert_ne; [by apply Hh |].
    intros <-. unfold new_loc in Hnew. congruence.
  - repeat split; done.
Qed.

Lemma keeps_set_if_int x l k :
  new_loc st0 l -> keeps st0 (set_if_int x l k) (fun _ => True).
Proof.
  intros Hnew. unfold set_if_int.
  destruct x as [n|]; [destruct (n =? 0) |];
    auto using keeps_ret, keeps_setitem.
Qed.

Lemma keeps_set_if_str x l k :
  new_loc st0 l -> keeps st0 (set_if_str x l k) (fun _ => True).
Proof.
  intros Hnew. unfold set_if_str.
  destruct x as [s|]; [destruct (String.eqb s "") |];
    auto using keeps_ret, keeps_setitem.
Qed.

Lemma keeps_dict_of v : keeps st0 (dict_of v) (new_loc st0).
Proof.
  destruct v as [| | |s|l]; simpl; try apply keeps_raise.
  - destruct (String.eqb s ""); [apply keeps_alloc | apply keeps_raise].
  - eapply keeps_bind; [apply keeps_read |]. intros d _. apply keeps_alloc.
Qed.

Lemma keeps_apply_overrides p a : keeps st0 (apply_overrides p a) (new_loc st0).
Proof.
  unfold apply_overrides.
  eapply keeps_bind; [apply keeps_dict_of |]. intros out Hout.
  do 4 (eapply keeps_bind;
        [first [by apply keeps_set_if_int | by apply keeps_set_if_str] |];
        intros _ _).
  eapply keeps_bind; [apply keeps_read |]. intros d _.
  eapply keeps_bind; [apply keeps_alloc |]. intros empty _.
  eapply keeps_bind; [apply keeps_dict_of |]. intros enc Henc.
  do 2 (eapply keeps_bind; [by apply keeps_set_if_str |]; intros _ _).
  eapply keeps_bind.
  { instantiate (1 := fun _ => True). destruct (crf a).
    - eapply keeps_bind; [by apply keeps_setitem |]. intros _ _.
      by apply keeps_setitem.
    - by apply keeps_ret. }
  intros _ _.
  eapply keeps_bind; [by apply keeps_set_if_str |]. intros _ _.
  eapply keeps_bind; [by apply keeps_setitem |]. intros _ _.
  eapply keeps_bind; [by apply keeps_set_if_str |]. intros _ _.
  by apply keeps_ret.
Qed.

End Frame.

Lemma apply_overrides_extends p a st st' r :
  apply_overrides p a st = (st', r) ->
  extends st st' /\ forall out, r = Ok out -> new_loc st out.
Proof. apply keeps_apply_overrides, extends_refl. Qed.

(** C8: a run of [apply_overrides], whether it returns or raises, changes
    no dictionary that was in the heap before it (the base preset and its
    ["encode"] dictionary among them), prints nothing and runs nothing; the
    preset it returns is a new object; and for a base preset in the heap the
    entries of the result and of its new ["encode"] dictionary are the
    functions [merged_preset] and [merged_encode] of the entries of the base
    and of the overrides alone. *)
Theorem apply_overrides_mutates_nothing p a st st' r :
  apply_overrides p a st = (st', r) ->
  (forall l d, st_heap st !! l = Some d -> st_heap st' !! l = Some d)
  /\ st_calls st' = st_calls st
  /\ st_stdout st' = st_stdout st
  /\ (forall out, r = Ok out -> st_heap st !! out = None)
  /\ (forall lb d0 e0,
        p = VDict lb -> preset_at (st_heap st) lb d0 e0 ->
        exists out enc,
          r = Ok out
          /\ st_heap st !! enc = None /\ out <> enc
          /\ st_heap st' !! out = Some (merged_preset d0 a enc)
          /\ st_heap st' !! enc = Some (merged_encode e0 a)).
Proof.
  intros Hrun.
  destruct (apply_overrides_extends p a st st' r Hrun)
    as [(Hh & Hc & Ho) Hnew].
  repeat (split; [done |]).
  intros lb d0 e0 -> Hp. destruct st as [h c o]. simpl in *.
  destruct (apply_overrides_run h c o lb d0 e0 a Hp)
    as (h' & out & enc & Hrun' & _ & Henc & Hne & Hout' & Henc' & _).
  rewrite Hrun' in Hrun. injection Hrun as <- <-.
  exists out, enc. auto.
Qed.

Lemma sample_preset_at :
  preset_at sample_heap 0%nat sample_reel sample_reel_encode.
Proof.
  split; [reflexivity |]. right. exists 1%nat. split; reflexivity.
Qed.

Lemma apply_overrides_mutates_nothing_witness :
  exists st' out,
    apply_overrides (VDict 0%nat) sample_overrides sample_state
    = (st', Ok out)
    /\ st_heap st' !! 0%nat = Some sample_reel
    /\ st_heap st' !! 1%nat = Some sample_reel_encode
    /\ st_heap sample_state !! out = None.
Proof.
  destruct (apply_overrides (VDict 0%nat) sample_overrides sample_state)
    as [st' r] eqn:Hrun.
  destruct (apply_overrides_mutates_nothing _ _ _ _ _ Hrun)
    as (Hh & _ & _ & Hnew & Hpure).
  destruct (Hpure 0%nat sample_reel sample_reel_encode eq_refl
              sample_preset_at) as (out & enc & -> & _).
  exists st', out. split; [reflexivity |].
  split; [apply Hh; reflexivity |].
  split; [apply Hh; reflexivity |].
  by apply Hnew.
Defined.

(** ** What the overrides do to the fields *)

Lemma upd_int_falsy x k d : falsy_int x = true -> upd_int x k d = d.
Proof. unfold upd_int. destruct x as [n|]; simpl; [intros -> |]; done. Qed.

Lemma upd_str_falsy x k d : falsy_str x = true -> upd_str x k d = d.
Proof. unfold upd_str. destruct x as [s|]; simpl; [intros -> |]; done. Qed.

Lemma merged_preset_encode d0 a enc :
  merged_preset d0 a enc !! "encode" = Some (VDict enc).
Proof.
  unfold merged_preset. rewrite upd_str_other by done.
  apply lookup_insert_eq.
Qed.

Lemma merged_encode_crf e0 a n :
  crf a = Some n ->
  merged_encode e0 a !! "mode" = Some (VStr "crf")
  /\ merged_encode e0 a !! "crf" = Some (VInt n).
Proof.
  intros Hcrf. unfold merged_encode. rewrite Hcrf.
  rewrite !upd_str_other by done. split.
  - rewrite lookup_insert_ne by done. apply lookup_insert_eq.
  - apply lookup_insert_eq.
Qed.

(** C3: for every base preset in the heap and every set of overrides that
    holds a crf, the preset [apply_overrides] returns has an ["encode"]
    dictionary whose mode is ["crf"] (and whose crf is the override),
    whatever the override of the mode is. *)
Theorem crf_override_forces_crf_mode st lb d0 e0 a n :
  preset_at (st_heap st) lb d0 e0 ->
  crf a = Some n ->
  exists st' out d enc e,
    apply_overrides (VDict lb) a st = (st', Ok out)
    /\ st_heap st' !! out = Some d
    /\ d !! "encode" = Some (VDict enc)
    /\ st_heap st' !! enc = Some e
    /\ e !! "mode" = Some (VStr "crf")
    /\ e !! "crf" = Some (VInt n).
Proof.
  intros Hp Hcrf. destruct st as [h c o]. simpl in Hp.
  destruct (apply_overrides_run h c o lb d0 e0 a Hp)
    as (h' & out & enc & Hrun & _ & _ & _ & Hout & Henc & _).
  destruct (merged_encode_crf e0 a n Hcrf) as [Hmode Hn].
  exists (State h' c o), out, (merged_preset d0 a enc), enc,
    (merged_encode e0 a).
  simpl. repeat split; auto using merged_preset_encode.
Qed.

Lemma crf_override_forces_crf_mode_witness :
  exists st' out d enc e,
    apply_overrides (VDict 0%nat) sample_overrides sample_state
    = (st', Ok out)
    /\ st_heap st' !! out = Some d
    /\ d !! "encode" = Some (VDict enc)
    /\ st_heap st' !! enc = Some e
    /\ e !! "mode" = Some (VStr "crf")
    /\ e !! "crf" = Some (VInt 0).
Proof.
  apply (crf_override_forces_crf_mode sample_state 0%nat sample_reel
           sample_reel_encode sample_overrides 0).
  - exact sample_preset_at.
  - reflexivity.
Defined.

Lemma bind_congr {A B} (m m' : M A) (k k' : A -> M B) st :
  m st = m' st -> (forall a st1, k a st1 = k' a st1) ->
  bind m k st = bind m' k' st.
Proof.
  intros Hm Hk. unfold bind. rewrite Hm.
  destruct (m' st) as [st1 [x|e]]; [apply Hk | reflexivity].
Qed.

Lemma drop_falsy_same p a st :
  apply_overrides p (drop_falsy a) st = apply_overrides p a st.
Proof.
  assert (Hi : forall x l k,
            set_if_int (if falsy_int x then None else x) l k = set_if_int x l k).
  { intros [n|] l k; simpl; [| done].
    destruct (n =? 0) eqn:E; simpl; by rewrite ?E. }
  assert (Hs : forall x l k,
            set_if_str (if falsy_str x then None else x) l k = set_if_str x l k).
  { intros [s|] l k; simpl;
      [destruct (String.eqb s "") eqn:E; simpl; by rewrite ?E | done]. }
  unfold apply_overrides, drop_falsy.
  cbn [width height fps strategy mode video_bitrate crf x264_preset
       audio_bitrate].
  repeat (apply bind_congr; [by rewrite ?Hi, ?Hs | intros ? ?]).
  reflexivity.
Qed.

(** C9: an override of width, height, fps, strategy, mode, video_bitrate,
    x264_preset or audio_bitrate that is [0] or [""] is treated as absent:
    the run of [apply_overrides] is the run without it, and the field of the
    resolved preset is the field of the base (for the mode, when no crf is
    given).  A crf of [0] is applied: the resolved crf is [0] and the
    resolved mode is ["crf"]. *)
Theorem falsy_overrides_are_absent st lb d0 e0 a :
  preset_at (st_heap st) lb d0 e0 ->
  apply_overrides (VDict lb) a st = apply_overrides (VDict lb) (drop_falsy a) st
  /\ exists st' out d enc e,
      apply_overrides (VDict lb) a st = (st', Ok out)
      /\ st_heap st' !! out = Some d
      /\ d !! "encode" = Some (VDict enc)
      /\ st_heap st' !! enc = Some e
      /\ (falsy_int (width a) = true -> d !! "width" = d0 !! "width")
      /\ (falsy_int (height a) = true -> d !! "height" = d0 !! "height")
      /\ (falsy_int (fps a) = true -> d !! "fps" = d0 !! "fps")
      /\ (falsy_str (strategy a) = true -> d !! "strategy" = d0 !! "strategy")
      /\ (falsy_str (audio_bitrate a) = true ->
          d !! "audio_bitrate" = d0 !! "audio_bitrate")
      /\ (falsy_str (mode a) = true -> crf a = None ->
          e !! "mode" = e0 !! "mode")
      /\ (falsy_str (video_bitrate a) = true ->
          e !! "video_bitrate" = e0 !! "video_bitrate")
      /\ (falsy_str (x264_preset a) = true ->
          e !! "x264_preset" = e0 !! "x264_preset")
      /\ (crf a = Some 0 ->
          e !! "crf" = Some (VInt 0) /\ e !! "mode" = Some (VStr "crf")).
Proof.
  intros Hp. split; [by rewrite drop_falsy_same |].
  destruct st as [h c o]. simpl in Hp.
  destruct (apply_overrides_run h c o lb d0 e0 a Hp)
    as (h' & out & enc & Hrun & _ & _ & _ & Hout & Henc & _).
  exists (State h' c o), out, (merged_preset d0 a enc), enc,
    (merged_encode e0 a).
  simpl. repeat (split; [by auto using merged_preset_encode |]).
  unfold merged_preset, merged_encode.
  repeat split.
  - intros H. rewrite (upd_int_falsy _ _ _ H).
    rewrite upd_str_other, lookup_insert_ne, upd_str_other,
      !upd_int_other by done. done.
  - intros H. rewrite (upd_int_falsy (height a) _ _ H).
    rewrite upd_str_other, lookup_insert_ne, upd_str_other,
      !upd_int_other by done. done.
  - intros H. rewrite (upd_int_falsy (fps a) _ _ H).
    rewrite upd_str_other, lookup_insert_ne, upd_str_other,
      !upd_int_other by done. done.
  - intros H. rewrite (upd_str_falsy (strategy a) _ _ H).
    rewrite upd_str_other, lookup_insert_ne, !upd_int_other by done. done.
  - intros H. rewrite (upd_str_falsy (audio_bitrate a) _ _ H).
    rewrite lookup_insert_ne, upd_str_other, !upd_int_other by done. done.
  - intros H ->. rewrite (upd_str_falsy (mode a) _ _ H).
    by rewrite !upd_str_other.
  - intros H. rewrite (upd_str_falsy (video_bitrate a) _ _ H).
    rewrite upd_str_other by done.
    destruct (crf a); rewrite ?lookup_insert_ne, ?upd_str_other by done; done.
  - intros H. rewrite (upd_str_falsy (x264_preset a) _ _ H).
    destruct (crf a); rewrite ?lookup_insert_ne, !upd_str_other by done; done.
  - apply (merged_encode_crf e0 a 0 H).
  - apply (merged_encode_crf e0 a 0 H).
Qed.

Lemma falsy_overrides_are_absent_witness :
  exists st' out d enc e,
    apply_overrides (VDict 0%nat) sample_overrides sample_state
    = (st', Ok out)
    /\ st_heap st' !! out = Some d
    /\ d !! "encode" = Some (VDict enc)
    /\ st_heap st' !! enc = Some e
    /\ d !! "width" = Some (VInt 1080)
    /\ d !! "audio_bitrate" = None
    /\ e !! "crf" = Some (VInt 0)
    /\ e !! "mode" = Some (VStr "crf").
Proof.
  destruct (falsy_overrides_are_absent sample_state 0%nat sample_reel
              sample_reel_encode sample_overrides sample_preset_at)
    as (_ & st' & out & d & enc & e & Hrun & Hout & Hd & Henc & Hw & _ & _ & _
        & Ha & _ & _ & _ & Hcrf).
  exists st', out, d, enc, e.
  repeat (split; [assumption |]).
  split; [exact (Hw eq_refl) |].
  split; [exact (Ha eq_refl) |].
  destruct (Hcrf eq_refl). split; assumption.
Defined.

(** ** One job *)

Section Jobs.

Variable encoder : list (list string) -> list string -> result Z.
Variable presets : gmap string value.
Variable outdir : list string.
Variable args : Namespace.

Lemma read_state l st st' (r : result (gmap string value)) :
  read l st = (st', r) -> st' = st.
Proof. unfold read. destruct (st_heap st !! l); by intros [= <- _]. Qed.

Lemma lift_state {A} (x : result A) st st' r :
  lift x st = (st', r) -> st' = st.
Proof. by intros [= <- _]. Qed.

(** What a run of [process_one] does to the state: when it raises while the
    command is built, nothing; in a dry run, one printed line; otherwise one
    printed line and one call of the encoder, whose answer is the result. *)
Lemma process_one_inv infile n p dry st st' r :
  process_one encoder infile outdir n p dry st = (st', r) ->
  st_heap st' = st_heap st
  /\ ((exists e, r = Raise e)
      /\ st_calls st' = st_calls st /\ st_stdout st' = st_stdout st
      \/ dry = true /\ r = Ok 0 /\ st_calls st' = st_calls st
         /\ (exists line, st_stdout st' = st_stdout st ++ [line])
      \/ dry = false
         /\ exists argv line,
              st_calls st' = st_calls st ++ [argv]
              /\ st_stdout st' = st_stdout st ++ ["Running: " +:+ line]
              /\ r = encoder (st_calls st) argv).
Proof.
  unfold process_one. intros H.
  apply bind_inv in H as [(s1 & d & H1 & H) | (e & H1 & ->)];
    apply read_state in H1 as ->; [| eauto 10].
  apply bind_inv in H as [(s1 & name & H1 & H) | (e & H1 & ->)];
    apply lift_state in H1 as ->; [| eauto 10].
  apply bind_inv in H as [(s1 & cmd & H1 & H) | (e & H1 & ->)];
    injection H1 as <- H1; [| eauto 10].
  destruct dry.
  - apply bind_inv in H as [(s1 & line & H2 & H) | (e & H2 & ->)];
      apply lift_state in H2 as ->; [| eauto 10].
    injection H as <- <-. simpl. split; [done |]. right. left. eauto.
  - apply bind_inv in H as [(s1 & line & H2 & H) | (e & H2 & ->)].
    2: { apply lift_state in H2 as ->. eauto 10. }
    pose proof H2 as H2'. apply lift_state in H2' as ->.
    injection H2 as H2. unfold py_join in H2.
    destruct (all_str cmd) as [argv|e] eqn:Hargv; [| discriminate].
    simpl in H2. injection H2 as <-.
    unfold bind, print, subprocess_call in H. simpl in H. rewrite Hargv in H.
    injection H as <- <-. simpl. split; [done |]. right. right.
    split; [done |]. eauto.
Qed.

(** The run of [process_one] whose command can be built. *)
Lemma process_one_run infile out n p dry h c o d name cmd argv :
  h !! p = Some d ->
  normalize_outname (path_stem infile) n (get d "container" (VStr "mp4"))
    = Ok name ->
  build_cmd h infile (path_div out name) d = Ok cmd ->
  all_str cmd = Ok argv ->
  process_one encoder infile out n p dry (State h c o)
  = if dry
    then (State h c (o ++ ["DRY RUN: " +:+ join " " argv]), Ok 0)
    else (State h (c ++ [argv]) (o ++ ["Running: " +:+ join " " argv]),
          encoder c argv).
Proof.
  intros Hp Hname Hcmd Hargv. unfold process_one.
  rewrite (bind_run _ _ _ _ _ (read_run h c o p d Hp)).
  rewrite Hname. erewrite bind_run; [| reflexivity].
  erewrite bind_run; [| cbn [st_heap]; by rewrite Hcmd].
  unfold py_join. rewrite Hargv. cbn [rbind].
  destruct dry.
  - reflexivity.
  - erewrite bind_run; [| reflexivity].
    unfold bind, print, subprocess_call. simpl. by rewrite Hargv.
Qed.

(** The same for a whole turn of the inner loop: [apply_overrides] adds
    dictionaries to the heap and leaves the rest alone. *)
Lemma job_inv infile n st st' r :
  job encoder presets outdir args infile n st = (st', r) ->
  (exists e, r = Raise e)
  /\ st_calls st' = st_calls st /\ st_stdout st' = st_stdout st
  \/ dry_run args = true /\ r = Ok 0 /\ st_calls st' = st_calls st
     /\ (exists line, st_stdout st' = st_stdout st ++ [line])
  \/ dry_run args = false
     /\ exists argv line,
          st_calls st' = st_calls st ++ [argv]
          /\ st_stdout st' = st_stdout st ++ ["Running: " +:+ line]
          /\ r = encoder (st_calls st) argv.
Proof.
  unfold job. intros H.
  apply bind_inv in H as [(s1 & base & H1 & H) | (e & H1 & ->)];
    apply lift_state in H1 as ->; [| eauto 10].
  apply bind_inv in H as [(s1 & p & H1 & H) | (e & H1 & ->)];
    apply apply_overrides_extends in H1 as [(_ & Hc & Ho) _];
    [| eauto 10].
  apply process_one_inv in H as [_ H]. rewrite Hc, Ho in H. exact H.
Qed.

(** ** The batch loop *)

Lemma last_cons_default {A} (a d : A) l : List.last (a :: l) d = List.last l a.
Proof.
  revert a d. induction l as [|b l IH]; intros a d; [reflexivity |].
  change (List.last (a :: b :: l) d) with (List.last (b :: l) d).
  by rewrite !IH.
Qed.

Lemma last_app_default {A} (l1 l2 : list A) d :
  List.last (l1 ++ l2) d = List.last l2 (List.last l1 d).
Proof.
  revert d. induction l1 as [|a l1 IH]; intros d; [reflexivity |].
  rewrite <- app_comm_cons, !last_cons_default. apply IH.
Qed.

Lemma statuses_app hist c1 c2 :
  statuses encoder hist (c1 ++ c2)
  = statuses encoder hist c1 ++ statuses encoder (hist ++ c1) c2.
Proof.
  revert hist. induction c1 as [|c c1 IH]; intros hist; simpl.
  - by rewrite app_nil_r.
  - rewrite IH. by rewrite <- app_assoc.
Qed.

(** The inner loop of a real run that reaches its end: one call of the
    encoder per name, and the exit code is that of the last failing one, or
    the one the loop started with. *)
Lemma names_loop_run infile names ec0 st st' ec :
  dry_run args = false ->
  names_loop encoder presets outdir args infile names ec0 st = (st', Ok ec) ->
  exists cmds codes,
    st_calls st' = st_calls st ++ cmds
    /\ length cmds = length names
    /\ statuses encoder (st_calls st) cmds = map Ok codes
    /\ ec = List.last (List.filter nonzero codes) ec0.
Proof.
  intros Hdry. revert ec0 st.
  induction names as [|n names IH]; intros ec0 st Hrun; simpl in Hrun.
  - injection Hrun as <- <-. exists [], []. by rewrite app_nil_r.
  - apply bind_inv in Hrun as [(st1 & code & Hjob & Hrun) | (e & _ & [=])].
    destruct (job_inv _ _ _ _ _ Hjob)
      as [([e [=]] & _) | [(Hd & _) | (_ & argv & line & Hc & _ & Hcode)]];
      [congruence |].
    destruct (code =? 0) eqn:Hz.
    + apply IH in Hrun as (cmds & codes & Hc' & Hlen & Hst & ->).
      exists (argv :: cmds), (code :: codes). simpl.
      assert (Hnz : nonzero code = false) by (unfold nonzero; by rewrite Hz).
      rewrite Hc', Hc, <- app_assoc, <- Hcode, <- Hc, Hst, Hnz. auto.
    + apply bind_inv in Hrun as [(st2 & [] & Hprint & Hrun) | (e & [=] & _)].
      injection Hprint as <-.
      apply IH in Hrun as (cmds & codes & Hc' & Hlen & Hst & ->).
      simpl in Hc', Hst.
      exists (argv :: cmds), (code :: codes). simpl.
      assert (Hnz : nonzero code = true) by (unfold nonzero; by rewrite Hz).
      rewrite Hc', Hc, <- app_assoc, <- Hcode, <- Hc, Hst, Hnz.
      rewrite last_cons_default. auto.
Qed.

Lemma inputs_loop_run inputs names ec0 st st' ec :
  dry_run args = false ->
  inputs_loop encoder presets outdir args inputs names ec0 st = (st', Ok ec) ->
  exists cmds codes,
    st_calls st' = st_calls st ++ cmds
    /\ length cmds = (length inputs * length names)%nat
    /\ statuses encoder (st_calls st) cmds = map Ok codes
    /\ ec = List.last (List.filter nonzero codes) ec0.
Proof.
  intros Hdry. revert ec0 st.
  induction inputs as [|infile inputs IH]; intros ec0 st Hrun; simpl in Hrun.
  - injection Hrun as <- <-. exists [], []. by rewrite app_nil_r.
  - apply bind_inv in Hrun as [(st1 & ec1 & Hnames & Hrun) | (e & _ & [=])].
    apply (names_loop_run _ _ _ _ _ _ Hdry) in Hnames
      as (cmds1 & codes1 & Hc1 & Hlen1 & Hst1 & ->).
    apply IH in Hrun as (cmds2 & codes2 & Hc2 & Hlen2 & Hst2 & ->).
    exists (cmds1 ++ cmds2), (codes1 ++ codes2).
    rewrite Hc2, Hc1, <- app_assoc. split; [done |].
    rewrite length_app, Hlen1, Hlen2. split; [simpl; lia |].
    rewrite statuses_app, Hst1, <- Hc1, Hst2, map_app. split; [done |].
    by rewrite List.filter_app, last_app_default.
Qed.

(** A dry run that reaches its end runs nothing, prints one line per job
    and leaves the exit code as it was. *)
Lemma names_loop_dry infile names ec0 st st' ec :
  dry_run args = true ->
  names_loop encoder presets outdir args infile names ec0 st = (st', Ok ec) ->
  ec = ec0 /\ st_calls st' = st_calls st
  /\ length (st_stdout st') = (length (st_stdout st) + length names)%nat.
Proof.
  intros Hdry. revert st.
  induction names as [|n names IH]; intros st Hrun; simpl in Hrun.
  - injection Hrun as <- <-. auto with lia.
  - apply bind_inv in Hrun as [(st1 & code & Hjob & Hrun) | (e & _ & [=])].
    destruct (job_inv _ _ _ _ _ Hjob)
      as [([e [=]] & _) | [(_ & [= ->] & Hc & line & Ho) | (Hd & _)]];
      [| congruence].
    simpl in Hrun. apply IH in Hrun as (-> & Hc' & Hlen).
    rewrite Hc', Hc, Hlen, Ho, length_app. simpl. auto with lia.
Qed.

Lemma inputs_loop_dry inputs names ec0 st st' ec :
  dry_run args = true ->
  inputs_loop encoder presets outdir args inputs names ec0 st = (st', Ok ec) ->
  ec = ec0 /\ st_calls st' = st_calls st
  /\ length (st_stdout st')
     = (length (st_stdout st) + length inputs * length names)%nat.
Proof.
  intros Hdry. revert st.
  induction inputs as [|infile inputs IH]; intros st Hrun; simpl in Hrun.
  - injection Hrun as <- <-. auto with lia.
  - apply bind_inv in Hrun as [(st1 & ec1 & Hnames & Hrun) | (e & _ & [=])].
    apply (names_loop_dry _ _ _ _ _ _ Hdry) in Hnames as (-> & Hc1 & Hlen1).
    apply IH in Hrun as (-> & Hc2 & Hlen2).
    rewrite Hc2, Hc1, Hlen2, Hlen1. simpl. auto with lia.
Qed.

Lemma last_failure_all_zero codes :
  Forall (fun c => c = 0) codes -> last_failure codes = 0.
Proof.
  unfold last_failure. induction 1 as [|c codes -> _ IH]; [reflexivity |].
  exact IH.
Qed.

Lemma last_failure_last codes pre c post :
  codes = pre ++ c :: post -> c <> 0 -> Forall (fun c => c = 0) post ->
  last_failure codes = c.
Proof.
  intros -> Hc Hpost. unfold last_failure.
  rewrite List.filter_app, last_app_default. cbn [List.filter].
  assert (Hnz : nonzero c = true).
  { unfold nonzero. destruct (c =? 0) eqn:Hz; [lia | reflexivity]. }
  rewrite Hnz, last_cons_default.
  induction Hpost as [|x post -> _ IH]; [reflexivity | exact IH].
Qed.

End Jobs.

Lemma preset_at_extends h h' lb d0 e0 :
  (forall l d, h !! l = Some d -> h' !! l = Some d) ->
  preset_at h lb d0 e0 -> preset_at h' lb d0 e0.
Proof.
  intros Hext [Hlb Henc]. split; [by apply Hext |].
  destruct Henc as [H | (le & Hd & Hle)]; [by left |].
  right. exists le. split; [done | by apply Hext].
Qed.

(** The exit code of a batch loop that reached its end. *)
Lemma main_loop_exit_code encoder presets outdir args inputs names
    st st' ec :
  main_loop encoder presets outdir args inputs names st = (st', Ok ec) ->
  if dry_run args then
    ec = 0 /\ st_calls st' = st_calls st
    /\ length (st_stdout st')
       = (length (st_stdout st) + length inputs * length names)%nat
  else
    exists cmds codes,
      st_calls st' = st_calls st ++ cmds
      /\ length cmds = (length inputs * length names)%nat
      /\ statuses encoder (st_calls st) cmds = map Ok codes
      /\ ec = last_failure codes
      /\ (Forall (fun c => c = 0) codes -> ec = 0)
      /\ (forall pre c post,
            codes = pre ++ c :: post -> c <> 0 ->
            Forall (fun c => c = 0) post -> ec = c).
Proof.
  unfold main_loop. intros Hrun. destruct (dry_run args) eqn:Hdry.
  - by apply (inputs_loop_dry encoder presets outdir args inputs names 0).
  - apply (inputs_loop_run encoder presets outdir args inputs names 0) in Hrun
      as (cmds & codes & Hc & Hlen & Hst & ->); [| done].
    exists cmds, codes. repeat (split; [done |]). split.
    + apply last_failure_all_zero.
    + intros pre c post. apply last_failure_last.
Qed.

Section Returns.

Variable encoder : list (list string) -> list string -> result Z.
Variable presets : gmap string value.
Variable outdir : list string.
Variable args : Namespace.

Lemma later_state_trans st1 st2 st3 :
  later_state st1 st2 -> later_state st2 st3 -> later_state st1 st3.
Proof. unfold later_state. auto. Qed.

(** A job only adds dictionaries to the heap. *)
Lemma job_later infile n st st' r :
  job encoder presets outdir args infile n st = (st', r) ->
  later_state st st'.
Proof.
  unfold job. intros H.
  apply bind_inv in H as [(s1 & base & H1 & H) | (e & H1 & ->)];
    apply lift_state in H1 as ->; [| by intros ? ?].
  apply bind_inv in H as [(s1 & p & H1 & H) | (e & H1 & ->)];
    apply apply_overrides_extends in H1 as [(Hh & _) _]; [| exact Hh].
  apply process_one_inv in H as [Heq _].
  intros l d Hl. rewrite Heq. by apply Hh.
Qed.

(** A job returns an exit code when its preset is in the heap, the command
    of the resolved preset can be built and the encoder answers the
    command. *)
Lemma job_returns infile n lb d0 e0 st :
  presets !! n = Some (VDict lb) ->
  preset_at (st_heap st) lb d0 e0 ->
  (forall hist cmd, exists c, encoder hist cmd = Ok c) ->
  (forall h enc,
      h !! enc = Some (merged_encode e0 args) ->
      exists name cmd argv,
        normalize_outname (path_stem infile) n
          (get (merged_preset d0 args enc) "container" (VStr "mp4")) = Ok name
        /\ build_cmd h infile (path_div outdir name)
             (merged_preset d0 args enc) = Ok cmd
        /\ all_str cmd = Ok argv) ->
  exists st' code,
    job encoder presets outdir args infile n st = (st', Ok code).
Proof.
  intros Hn Hp Henc Hbuild. destruct st as [h c o]. simpl in Hp.
  destruct (apply_overrides_run h c o lb d0 e0 args Hp)
    as (h' & out & enc & Hrun & _ & _ & _ & Hout & Henc' & _).
  destruct (Hbuild h' enc Henc') as (name & cmd & argv & Hname & Hcmd & Hargv).
  destruct (dry_run args) eqn:Hdry.
  - eexists _, 0. unfold job. rewrite (getitem_Some _ _ _ Hn).
    erewrite bind_run; [| reflexivity].
    rewrite (bind_run _ _ _ _ _ Hrun), Hdry.
    apply (process_one_run encoder _ _ _ _ true _ _ _ _ _ _ _
             Hout Hname Hcmd Hargv).
  - destruct (Henc c argv) as [code Hcode].
    eexists _, code. unfold job. rewrite (getitem_Some _ _ _ Hn).
    erewrite bind_run; [| reflexivity].
    rewrite (bind_run _ _ _ _ _ Hrun), Hdry.
    rewrite (process_one_run encoder _ _ _ _ false _ _ _ _ _ _ _
               Hout Hname Hcmd Hargv).
    by rewrite Hcode.
Qed.

(** When every job returns an exit code, so does the loop over the names:
    a job that failed is followed by the next. *)
Lemma names_loop_returns st infile names ec0 sta :
  (forall n st1, n ∈ names -> later_state st st1 ->
     exists st2 code,
       job encoder presets outdir args infile n st1 = (st2, Ok code)) ->
  later_state st sta ->
  exists st' ec,
    names_loop encoder presets outdir args infile names ec0 sta = (st', Ok ec)
    /\ later_state st st'.
Proof.
  revert ec0 sta. induction names as [|n names IH]; intros ec0 sta Hjobs Hl.
  - eexists _, _. split; [reflexivity | done].
  - destruct (Hjobs n sta) as (st2 & code & Hjob); [left | done |].
    pose proof (later_state_trans _ _ _ Hl (job_later _ _ _ _ _ Hjob)) as Hl2.
    cbn [names_loop]. rewrite (bind_run _ _ _ _ _ Hjob).
    destruct (code =? 0).
    + apply IH; [| done]. intros m st1 Hm. apply Hjobs. by right.
    + erewrite bind_run; [| reflexivity].
      apply IH; [| done]. intros m st1 Hm. apply Hjobs. by right.
Qed.

Lemma inputs_loop_returns st inputs names ec0 sta :
  (forall infile n st1, infile ∈ inputs -> n ∈ names -> later_state st st1 ->
     exists st2 code,
       job encoder presets outdir args infile n st1 = (st2, Ok code)) ->
  later_state st sta ->
  exists st' ec,
    inputs_loop encoder presets outdir args inputs names ec0 sta
    = (st', Ok ec)
    /\ later_state st st'.
Proof.
  revert ec0 sta. induction inputs as [|i inputs IH]; intros ec0 sta Hjobs Hl.
  - eexists _, _. split; [reflexivity | done].
  - destruct (names_loop_returns st i names ec0 sta) as (st1 & ec1 & H1 & Hl1);
      [intros n s1 Hn; apply Hjobs; [left | done] | done |].
    cbn [inputs_loop]. rewrite (bind_run _ _ _ _ _ H1).
    apply IH; [| done]. intros infile n s1 Hi. apply Hjobs. by right.
Qed.

End Returns.

(** C2: for every batch in which every job returns an exit code (in
    whatever state the jobs before it left), the batch loop reaches its
    end: a job that failed never keeps the next from running.  The encoder
    is called once for every pair of an input and a preset name, in order;
    the exit code is [0] if every call returned [0] and otherwise the code
    returned by the last call that did not.  In a dry run nothing is
    called, one line is printed per pair and the exit code is [0]. *)
Theorem exit_code_is_last_failure encoder presets outdir args inputs names
    st :
  (forall infile n st1,
      infile ∈ inputs -> n ∈ names -> later_state st st1 ->
      exists st2 code,
        job encoder presets outdir args infile n st1 = (st2, Ok code)) ->
  exists st' ec,
    main_loop encoder presets outdir args inputs names st = (st', Ok ec)
    /\ if dry_run args then
         ec = 0 /\ st_calls st' = st_calls st
         /\ length (st_stdout st')
            = (length (st_stdout st) + length inputs * length names)%nat
       else
         exists cmds codes,
           st_calls st' = st_calls st ++ cmds
           /\ length cmds = (length inputs * length names)%nat
           /\ statuses encoder (st_calls st) cmds = map Ok codes
           /\ ec = last_failure codes
           /\ (Forall (fun c => c = 0) codes -> ec = 0)
           /\ (forall pre c post,
                 codes = pre ++ c :: post -> c <> 0 ->
                 Forall (fun c => c = 0) post -> ec = c).
Proof.
  intros Hjobs.
  destruct (inputs_loop_returns encoder presets outdir args st inputs names
              0 st Hjobs) as (st' & ec & Hrun & _); [by intros ? ? |].
  exists st', ec. split; [exact Hrun |].
  exact (main_loop_exit_code _ _ _ _ _ _ _ _ _ Hrun).
Qed.

(** The command of the sample preset can be built for every input. *)
Lemma sample_reel_builds infile h enc :
  h !! enc = Some (merged_encode sample_reel_encode no_overrides) ->
  exists name cmd argv,
    normalize_outname (path_stem infile) "reel"
      (get (merged_preset sample_reel no_overrides enc) "container"
         (VStr "mp4")) = Ok name
    /\ build_cmd h infile (path_div ["outputs"] name)
         (merged_preset sample_reel no_overrides enc) = Ok cmd
    /\ all_str cmd = Ok argv.
Proof.
  intros Henc. eexists _, _, _. split; [reflexivity |].
  unfold build_cmd, encode_of.
  rewrite merged_preset_encode, Henc.
  split; [reflexivity | reflexivity].
Qed.

Lemma exit_code_is_last_failure_witness :
  exists st',
    main_loop second_fails sample_presets ["outputs"] no_overrides
      [["a.mp4"]; ["b.mp4"]; ["c.mp4"]] ["reel"] sample_state
    = (st', Ok 3)
    /\ length (st_calls st') = 3%nat.
Proof.
  destruct (exit_code_is_last_failure second_fails sample_presets
              ["outputs"] no_overrides [["a.mp4"]; ["b.mp4"]; ["c.mp4"]]
              ["reel"] sample_state)
    as (st' & ec & Hrun & cmds & codes & Hcalls & Hlen & _).
  { intros infile n st1 _ Hn Hlater.
    apply list_elem_of_singleton in Hn as ->.
    apply (job_returns second_fails sample_presets ["outputs"] no_overrides
             infile "reel" 0%nat sample_reel sample_reel_encode st1).
    - reflexivity.
    - exact (preset_at_extends _ _ _ _ _ Hlater sample_preset_at).
    - intros hist cmd. eexists. reflexivity.
    - apply sample_reel_builds. }
  exists st'. split.
  - rewrite Hrun. f_equal. apply (f_equal snd) in Hrun.
    vm_compute in Hrun. congruence.
  - rewrite Hcalls. exact Hlen.
Defined.

(** ** Errors raised while a job is built *)

Lemma build_video_args_invalid_mode enc m :
  py_lower (get enc "mode" (VStr "bitrate")) = Ok m ->
  m <> "bitrate" -> m <> "crf" ->
  build_video_args enc = Raise mode_error.
Proof.
  intros Hm Hb Hc. unfold build_video_args.
  rewrite (rbind_Ok _ _ _ Hm).
  apply String.eqb_neq in Hb, Hc. by rewrite Hb, Hc.
Qed.

Section Errors.

Variable encoder : list (list string) -> list string -> result Z.
Variable presets : gmap string value.
Variable outdir : list string.
Variable args : Namespace.

(** A job whose command cannot be built raises the error of the builder,
    having printed nothing and run nothing. *)
Lemma job_build_error infile n lb d0 e0 e st :
  presets !! n = Some (VDict lb) ->
  preset_at (st_heap st) lb d0 e0 ->
  (forall enc, exists name,
      normalize_outname (path_stem infile) n
        (get (merged_preset d0 args enc) "container" (VStr "mp4")) = Ok name) ->
  (forall h outfile enc,
      build_cmd h infile outfile (merged_preset d0 args enc) = Raise e) ->
  exists st',
    job encoder presets outdir args infile n st = (st', Raise e)
    /\ st_calls st' = st_calls st /\ st_stdout st' = st_stdout st.
Proof.
  intros Hn Hp Hname Hbuild. destruct st as [h c o]. simpl in Hp.
  destruct (apply_overrides_run h c o lb d0 e0 args Hp)
    as (h' & out & enc & Hrun & _ & _ & _ & Hout & _).
  destruct (Hname enc) as [name Hname'].
  exists (State h' c o). split; [| done].
  unfold job. rewrite (getitem_Some _ _ _ Hn).
  erewrite bind_run; [| reflexivity].
  rewrite (bind_run _ _ _ _ _ Hrun).
  unfold process_one.
  rewrite (bind_run _ _ _ _ _ (read_run _ _ _ _ _ Hout)).
  rewrite Hname'. erewrite bind_run; [| reflexivity].
  apply bind_raise. cbn [st_heap]. by rewrite Hbuild.
Qed.

(** Whatever a job raises ends the loop over the names there. *)
Lemma names_loop_raise infile names1 n names2 ec0 st st1 ec1 st2 e :
  names_loop encoder presets outdir args infile names1 ec0 st = (st1, Ok ec1) ->
  job encoder presets outdir args infile n st1 = (st2, Raise e) ->
  names_loop encoder presets outdir args infile (names1 ++ n :: names2) ec0 st
  = (st2, Raise e).
Proof.
  revert ec0 st. induction names1 as [|m names1 IH]; intros ec0 st H1 Hjob.
  - injection H1 as <- <-. simpl. by apply bind_raise.
  - simpl in *.
    apply bind_inv in H1 as [(sa & code & Hm & H1) | (e' & _ & [=])].
    rewrite (bind_run _ _ _ _ _ Hm).
    destruct (code =? 0); [by apply IH |].
    apply bind_inv in H1 as [(sb & [] & Hprint & H1) | (e' & _ & [=])].
    rewrite (bind_run _ _ _ _ _ Hprint). by apply IH.
Qed.

Lemma inputs_loop_raise inputs1 infile inputs2 names ec0 st st1 ec1 st2 e :
  inputs_loop encoder presets outdir args inputs1 names ec0 st = (st1, Ok ec1) ->
  names_loop encoder presets outdir args infile names ec1 st1 = (st2, Raise e) ->
  inputs_loop encoder presets outdir args (inputs1 ++ infile :: inputs2) names
    ec0 st
  = (st2, Raise e).
Proof.
  revert ec0 st. induction inputs1 as [|i inputs1 IH]; intros ec0 st H1 H2.
  - injection H1 as <- <-. simpl. by apply bind_raise.
  - simpl in *.
    apply bind_inv in H1 as [(sa & ec & Hi & H1) | (e' & _ & [=])].
    rewrite (bind_run _ _ _ _ _ Hi). by apply IH.
Qed.

End Errors.

(** C1, as the claim states it, fails: in the batch of the presets
    ["stretch"] (whose strategy is neither cover nor contain) and ["reel"]
    over one input, the ValueError of the filter builder leaves the loop:
    no line is printed for the pair, and the job of ["reel"] is never
    run. *)
Lemma invalid_strategy_aborts_batch :
  (main_loop always_fails sample_presets ["outputs"] no_overrides
     [["clip.mp4"]] ["stretch"; "reel"] sample_state).2
  = Raise strategy_error
  /\ st_calls
       (main_loop always_fails sample_presets ["outputs"] no_overrides
          [["clip.mp4"]] ["stretch"; "reel"] sample_state).1 = []
  /\ st_stdout
       (main_loop always_fails sample_presets ["outputs"] no_overrides
          [["clip.mp4"]] ["stretch"; "reel"] sample_state).1 = [].
Proof. repeat split; vm_compute; reflexivity. Qed.

(** What [build_cmd] does once the sizes are read. *)
Lemma build_cmd_after_sizes h infile outfile (p : gmap string value) w ht f :
  sizes_of p = Ok (w, ht, f) ->
  build_cmd h infile outfile p
  = (let? vf := build_filter w ht (get p "strategy" (VStr "cover"))
                  (get p "pad_color" (VStr "black")) in
     let? enc := encode_of h p in
     let? v_args := build_video_args enc in
     Ok ([VStr "ffmpeg"; VStr "-y";
          VStr "-i"; VStr (path_str infile);
          VStr "-vf"; VStr vf;
          VStr "-r"; VStr (str_of_int f);
          VStr "-c:v"; get p "vcodec" (VStr "libx264");
          VStr "-profile:v"; get p "profile" (VStr "high");
          VStr "-pix_fmt"; get p "pix_fmt" (VStr "yuv420p")]
         ++ v_args
         ++ [VStr "-movflags"; VStr "+faststart";
             VStr "-c:a"; VStr "aac";
             VStr "-b:a"; get p "audio_bitrate" (VStr "128k");
             VStr (path_str outfile)]))%res.
Proof.
  unfold sizes_of, build_cmd. intros H.
  repeat match type of H with
         | rbind ?r _ = Ok _ =>
             destruct r; [cbn [rbind] in H |- * | discriminate H]
         end.
  by injection H as -> -> ->.
Qed.

(** An invalid strategy stops [build_cmd] at the filter builder. *)
Lemma build_cmd_invalid_strategy h infile outfile (p : gmap string value)
    w ht f :
  sizes_of p = Ok (w, ht, f) ->
  get p "strategy" (VStr "cover") <> VStr "cover" ->
  get p "strategy" (VStr "cover") <> VStr "contain" ->
  build_cmd h infile outfile p = Raise strategy_error.
Proof.
  intros Hs Hc Hp. rewrite (build_cmd_after_sizes _ _ _ _ _ _ _ Hs).
  unfold build_filter. by rewrite !eq_str_false.
Qed.

(** An invalid mode stops [build_cmd] at the argument builder. *)
Lemma build_cmd_invalid_mode h infile outfile (p : gmap string value)
    w ht f vf enc e m :
  sizes_of p = Ok (w, ht, f) ->
  build_filter w ht (get p "strategy" (VStr "cover"))
    (get p "pad_color" (VStr "black")) = Ok vf ->
  p !! "encode" = Some (VDict enc) -> h !! enc = Some e ->
  py_lower (get e "mode" (VStr "bitrate")) = Ok m ->
  m <> "bitrate" -> m <> "crf" ->
  build_cmd h infile outfile p = Raise mode_error.
Proof.
  intros Hs Hf Hp He Hm Hb Hc.
  rewrite (build_cmd_after_sizes _ _ _ _ _ _ _ Hs), Hf. cbn [rbind].
  unfold encode_of. rewrite Hp, He. cbn [rbind].
  by rewrite (build_video_args_invalid_mode e m).
Qed.

Section BuilderErrors.

Variable encoder : list (list string) -> list string -> result Z.
Variable presets : gmap string value.
Variable outdir : list string.
Variable args : Namespace.

(** A job whose command cannot be built, whatever the address of its new
    encode dictionary, raises the error of the builder, having printed
    nothing and run nothing. *)
Lemma job_builder_error infile n lb d0 e0 e st :
  presets !! n = Some (VDict lb) ->
  preset_at (st_heap st) lb d0 e0 ->
  (forall enc, exists name,
      normalize_outname (path_stem infile) n
        (get (merged_preset d0 args enc) "container" (VStr "mp4")) = Ok name) ->
  (forall h outfile enc,
      h !! enc = Some (merged_encode e0 args) ->
      build_cmd h infile outfile (merged_preset d0 args enc) = Raise e) ->
  exists st',
    job encoder presets outdir args infile n st = (st', Raise e)
    /\ st_calls st' = st_calls st /\ st_stdout st' = st_stdout st.
Proof.
  intros Hn Hp Hname Hbuild. destruct st as [h c o]. simpl in Hp.
  destruct (apply_overrides_run h c o lb d0 e0 args Hp)
    as (h' & out & enc & Hrun & _ & _ & _ & Hout & Henc & _).
  destruct (Hname enc) as [name Hname'].
  exists (State h' c o). split; [| done].
  unfold job. rewrite (getitem_Some _ _ _ Hn).
  erewrite bind_run; [| reflexivity].
  rewrite (bind_run _ _ _ _ _ Hrun).
  unfold process_one.
  rewrite (bind_run _ _ _ _ _ (read_run _ _ _ _ _ Hout)).
  rewrite Hname'. erewrite bind_run; [| reflexivity].
  apply bind_raise. cbn [st_heap]. by rewrite (Hbuild h' _ enc Henc).
Qed.

End BuilderErrors.

(** C1, amended: nothing catches the error of a builder.  When the jobs
    before a pair (input, preset) ran to their end and the job of the pair
    raises, the batch loop ends there with that exception: the later jobs
    are not run and no exit code is produced.  An invalid strategy makes the
    filter builder raise and an invalid mode makes the argument builder
    raise; a job whose resolved preset has an invalid strategy, or a valid
    strategy and an invalid mode, raises that ValueError having printed
    nothing and run nothing, and so does every job whose command cannot be
    built.  Only a job that returns a nonzero exit code is logged, with its
    input and preset, and followed by the remaining jobs. *)
Theorem builder_error_ends_batch encoder presets outdir args :
  (forall inputs1 infile inputs2 names1 n names2 st sta eca st1 ec1 st2 e,
      inputs_loop encoder presets outdir args inputs1
        (names1 ++ n :: names2) 0 st = (sta, Ok eca) ->
      names_loop encoder presets outdir args infile names1 eca sta
        = (st1, Ok ec1) ->
      job encoder presets outdir args infile n st1 = (st2, Raise e) ->
      main_loop encoder presets outdir args (inputs1 ++ infile :: inputs2)
        (names1 ++ n :: names2) st
      = (st2, Raise e))
  /\ (forall w h strategy pad_color,
        strategy <> VStr "cover" -> strategy <> VStr "contain" ->
        build_filter w h strategy pad_color = Raise strategy_error)
  /\ (forall enc m,
        py_lower (get enc "mode" (VStr "bitrate")) = Ok m ->
        m <> "bitrate" -> m <> "crf" ->
        build_video_args enc = Raise mode_error)
  /\ (forall infile n lb d0 e0 st w ht f,
        presets !! n = Some (VDict lb) ->
        preset_at (st_heap st) lb d0 e0 ->
        (forall enc, exists name,
            normalize_outname (path_stem infile) n
              (get (merged_preset d0 args enc) "container" (VStr "mp4"))
            = Ok name) ->
        (forall enc, sizes_of (merged_preset d0 args enc) = Ok (w, ht, f)) ->
        (forall enc,
            get (merged_preset d0 args enc) "strategy" (VStr "cover")
              <> VStr "cover"
            /\ get (merged_preset d0 args enc) "strategy" (VStr "cover")
                 <> VStr "contain") ->
        exists st',
          job encoder presets outdir args infile n st
            = (st', Raise strategy_error)
          /\ st_calls st' = st_calls st /\ st_stdout st' = st_stdout st)
  /\ (forall infile n lb d0 e0 st w ht f m,
        presets !! n = Some (VDict lb) ->
        preset_at (st_heap st) lb d0 e0 ->
        (forall enc, exists name,
            normalize_outname (path_stem infile) n
              (get (merged_preset d0 args enc) "container" (VStr "mp4"))
            = Ok name) ->
        (forall enc, sizes_of (merged_preset d0 args enc) = Ok (w, ht, f)) ->
        (forall enc, exists vf,
            build_filter w ht
              (get (merged_preset d0 args enc) "strategy" (VStr "cover"))
              (get (merged_preset d0 args enc) "pad_color" (VStr "black"))
            = Ok vf) ->
        py_lower (get (merged_encode e0 args) "mode" (VStr "bitrate")) = Ok m ->
        m <> "bitrate" -> m <> "crf" ->
        exists st',
          job encoder presets outdir args infile n st
            = (st', Raise mode_error)
          /\ st_calls st' = st_calls st /\ st_stdout st' = st_stdout st)
  /\ (forall infile n lb d0 e0 e st,
        presets !! n = Some (VDict lb) ->
        preset_at (st_heap st) lb d0 e0 ->
        (forall enc, exists name,
            normalize_outname (path_stem infile) n
              (get (merged_preset d0 args enc) "container" (VStr "mp4"))
            = Ok name) ->
        (forall h outfile enc,
            h !! enc = Some (merged_encode e0 args) ->
            build_cmd h infile outfile (merged_preset d0 args enc)
            = Raise e) ->
        exists st',
          job encoder presets outdir args infile n st = (st', Raise e)
          /\ st_calls st' = st_calls st /\ st_stdout st' = st_stdout st)
  /\ (forall infile n names ec st st1 code,
        job encoder presets outdir args infile n st = (st1, Ok code) ->
        code <> 0 ->
        names_loop encoder presets outdir args infile (n :: names) ec st
        = names_loop encoder presets outdir args infile names code
            (State (st_heap st1) (st_calls st1)
               (st_stdout st1 ++ [error_line infile n code]))).
Proof.
  split; [| split; [| split; [| split; [| split; [| split]]]]].
  - intros inputs1 infile inputs2 names1 n names2 st sta eca st1 ec1 st2 e
      Hinputs Hnames Hjob.
    unfold main_loop. eapply inputs_loop_raise; [exact Hinputs |].
    eapply names_loop_raise; eauto.
  - intros w h strategy pad_color Hc Hp. unfold build_filter.
    by rewrite !eq_str_false.
  - apply build_video_args_invalid_mode.
  - intros infile n lb d0 e0 st w ht f Hn Hp Hname Hsizes Hstrategy.
    apply (job_builder_error encoder presets outdir args infile n lb d0 e0);
      try done.
    intros h outfile enc _. destruct (Hstrategy enc).
    by apply (build_cmd_invalid_strategy _ _ _ _ w ht f).
  - intros infile n lb d0 e0 st w ht f m Hn Hp Hname Hsizes Hfilter Hm Hb Hc.
    apply (job_builder_error encoder presets outdir args infile n lb d0 e0);
      try done.
    intros h outfile enc Henc. destruct (Hfilter enc) as [vf Hvf].
    apply (build_cmd_invalid_mode _ _ _ _ w ht f vf enc
             (merged_encode e0 args) m); try done.
    apply merged_preset_encode.
  - apply job_builder_error.
  - intros infile n names ec st st1 code Hjob Hcode.
    cbn [names_loop]. rewrite (bind_run _ _ _ _ _ Hjob).
    destruct (code =? 0) eqn:Hz; [lia |]. reflexivity.
Qed.

Lemma sample_vbr_preset_at :
  preset_at (st_heap sample_vbr_state) 0%nat sample_vbr sample_vbr_encode.
Proof.
  split; [reflexivity |]. right. exists 1%nat. split; reflexivity.
Qed.

Lemma builder_error_ends_batch_witness :
  (exists st2,
      main_loop always_fails sample_presets ["outputs"] no_overrides
        [["a.mp4"]; ["b.mp4"]; ["c.mp4"]] ["reel"; "stretch"; "reel"]
        sample_state
      = (st2, Raise strategy_error)
      /\ length (st_calls st2) = 1%nat)
  /\ (exists st',
      job always_fails sample_vbr_presets ["outputs"] no_overrides
        ["a.mp4"] "vbr" sample_vbr_state
      = (st', Raise mode_error)
      /\ st_calls st' = [] /\ st_stdout st' = []).
Proof.
  split.
  - set (st1 := (names_loop always_fails sample_presets ["outputs"]
                   no_overrides ["a.mp4"] ["reel"] 0 sample_state).1).
    set (st2 := (job always_fails sample_presets ["outputs"] no_overrides
                   ["a.mp4"] "stretch" st1).1).
    exists st2. split; [| vm_compute; reflexivity].
    destruct (builder_error_ends_batch always_fails sample_presets
                ["outputs"] no_overrides) as (H & _).
    apply (H [] ["a.mp4"] [["b.mp4"]; ["c.mp4"]] ["reel"] "stretch" ["reel"]
             sample_state sample_state 0 st1 1 st2 strategy_error);
      vm_compute; reflexivity.
  - destruct (builder_error_ends_batch always_fails sample_vbr_presets
                ["outputs"] no_overrides) as (_ & _ & _ & _ & H & _).
    apply (H ["a.mp4"] "vbr" 0%nat sample_vbr sample_vbr_encode
             sample_vbr_state 1080 1920 30 "vbr").
    + reflexivity.
    + exact sample_vbr_preset_at.
    + intros enc. eexists. reflexivity.
    + intros enc. reflexivity.
    + intros enc. eexists. reflexivity.
    + reflexivity.
    + discriminate.
    + discriminate.
Defined.

(** ** Numerals: [int(str(n))] is [n] *)

Lemma uint_value_pos d p :
  uint_value d (Z.pos p) = Z.pos (Pos.of_uint_acc d p).
Proof.
  revert p. induction d; intros p; simpl; [reflexivity | ..];
    match goal with
    | |- uint_value _ ?z = Z.pos (Pos.of_uint_acc _ ?q) =>
        replace z with (Z.pos q) by lia; apply IHd
    end.
Qed.

Lemma uint_value_zero d : uint_value d 0 = Z.of_N (Pos.of_uint d).
Proof.
  induction d; simpl; [reflexivity | exact IHd | ..];
    apply uint_value_pos.
Qed.

Lemma digits_value_uint d b acc :
  d <> Decimal.Nil \/ b = true ->
  digits_value (list_ascii_of_string (NilEmpty.string_of_uint d)) b acc
  = Some (uint_value d acc).
Proof.
  revert b acc. induction d; intros b acc Hb; simpl;
    [destruct Hb as [Hb | ->]; [congruence | reflexivity] | ..];
    (rewrite IHd by (by right); do 2 f_equal; unfold digit_val; simpl; lia).
Qed.

Lemma to_uint_not_nil p : Pos.to_uint p <> Decimal.Nil.
Proof.
  intros H. pose proof (DecimalPos.Unsigned.of_to p) as E.
  rewrite H in E. discriminate.
Qed.

Lemma digits_value_to_uint p :
  digits_value
    (list_ascii_of_string (NilEmpty.string_of_uint (Pos.to_uint p))) false 0
  = Some (Z.pos p).
Proof.
  rewrite digits_value_uint by (left; apply to_uint_not_nil).
  by rewrite uint_value_zero, DecimalPos.Unsigned.of_to.
Qed.

Lemma numeral_char_no_space c : numeral_char c -> py_isspace c = false.
Proof.
  intros [H | ->]; [| reflexivity]. revert H.
  destruct c as [[] [] [] [] [] [] [] []]; vm_compute; congruence.
Qed.

Lemma digit_no_sign c :
  is_digit c = true -> Ascii.eqb c "-" = false /\ Ascii.eqb c "+" = false.
Proof.
  destruct c as [[] [] [] [] [] [] [] []]; vm_compute; auto; congruence.
Qed.

Lemma lstrip_no_space cs :
  Forall (fun c => py_isspace c = false) cs -> lstrip cs = cs.
Proof. destruct 1 as [|c cs Hc _]; simpl; [reflexivity | by rewrite Hc]. Qed.

Lemma strip_numeral cs : Forall numeral_char cs -> strip cs = cs.
Proof.
  intros H.
  assert (Hs : Forall (fun c => py_isspace c = false) cs)
    by (eapply Forall_impl; [exact H | apply numeral_char_no_space]).
  unfold strip. rewrite (lstrip_no_space cs Hs).
  rewrite lstrip_no_space by (by apply Forall_rev).
  apply rev_involutive.
Qed.

Lemma uint_chars_digits d :
  Forall (fun c => is_digit c = true)
    (list_ascii_of_string (NilEmpty.string_of_uint d)).
Proof. induction d; simpl; constructor; auto. Qed.

Lemma nilzero_to_uint p :
  NilZero.string_of_uint (Pos.to_uint p)
  = NilEmpty.string_of_uint (Pos.to_uint p).
Proof.
  pose proof (to_uint_not_nil p) as H.
  unfold NilZero.string_of_uint. destruct (Pos.to_uint p); congruence.
Qed.

(** Reading the text of an integer gives the integer back. *)
Lemma parse_int_str_of_int n : parse_int (str_of_int n) = Some n.
Proof.
  unfold parse_int. rewrite strip_numeral by apply str_of_int_chars.
  unfold str_of_int. destruct n as [|p|p]; [reflexivity | |].
  - cbn [Z.to_int NilZero.string_of_int]. rewrite nilzero_to_uint.
    pose proof (uint_chars_digits (Pos.to_uint p)) as Hd.
    pose proof (digits_value_to_uint p) as Hv.
    destruct (list_ascii_of_string (NilEmpty.string_of_uint (Pos.to_uint p)))
      as [|c cs]; [discriminate |].
    apply Forall_cons in Hd as [Hc _].
    destruct (digit_no_sign c Hc) as [Hm Hp].
    unfold signed_value. by rewrite Hm, Hp.
  - cbn [Z.to_int NilZero.string_of_int]. rewrite nilzero_to_uint.
    cbn [list_ascii_of_string signed_value].
    change (Ascii.eqb "-" "-") with true. cbn iota.
    by rewrite digits_value_to_uint.
Qed.

(** For a bitrate written as a number and the suffix [k], the builder does
    what C4 asks: the three arguments carry the bitrate verbatim, and the
    buffer size is twice the number with the suffix [k]. *)
Lemma bufsize_doubles_for_k enc n :
  py_lower (get enc "mode" (VStr "bitrate")) = Ok "bitrate" ->
  get enc "video_bitrate" (VStr "5000k") = VStr (str_of_int n +:+ "k") ->
  build_video_args enc
  = Ok [VStr "-preset"; get enc "x264_preset" (VStr "medium");
        VStr "-b:v"; VStr (str_of_int n +:+ "k");
        VStr "-maxrate"; VStr (str_of_int n +:+ "k");
        VStr "-bufsize"; VStr (str_of_int (2 * n) +:+ "k")].
Proof.
  intros Hmode Hvb.
  rewrite (build_video_args_bitrate enc _ Hmode Hvb).
  rewrite (drop_last_snoc (str_of_int n) "k"), parse_int_str_of_int.
  by rewrite (Z.mul_comm n 2).
Qed.

(** * Further properties of the builders *)

Lemma bufsize_doubles_for_k_witness :
  build_video_args
    (<["mode" := VStr "bitrate"]> (<["video_bitrate" := VStr "6000k"]> ∅))
  = Ok [VStr "-preset"; VStr "medium"; VStr "-b:v"; VStr "6000k";
        VStr "-maxrate"; VStr "6000k"; VStr "-bufsize"; VStr "12000k"].
Proof.
  etrans;
    [ apply (bufsize_doubles_for_k
               (<["mode" := VStr "bitrate"]>
                  (<["video_bitrate" := VStr "6000k"]> ∅)) 6000);
      reflexivity
    | reflexivity ].
Defined.

Lemma get_insert_eq (d : gmap string value) k v default :
  get (<[k := v]> d) k default = v.
Proof. unfold get. by rewrite lookup_insert_eq. Qed.

Lemma get_insert_ne (d : gmap string value) k k' v default :
  k <> k' -> get (<[k := v]> d) k' default = get d k' default.
Proof. intros H. unfold get. by rewrite lookup_insert_ne. Qed.

Lemma lower_char_idempotent c : lower_char (lower_char c) = lower_char c.
Proof. destruct c as [[] [] [] [] [] [] [] []]; reflexivity. Qed.

Lemma lower_idempotent s : lower (lower s) = lower s.
Proof.
  induction s as [|c s IH]; simpl; [reflexivity |].
  by rewrite lower_char_idempotent, IH.
Qed.

(** The arguments depend on the mode only through its lower-case form. *)
Lemma build_video_args_mode enc m :
  build_video_args (<["mode" := VStr m]> enc)
  = build_video_args (<["mode" := VStr (lower m)]> enc).
Proof.
  unfold build_video_args.
  rewrite !get_insert_eq, !get_insert_ne by done.
  cbn [py_lower rbind]. by rewrite lower_idempotent.
Qed.

(** The mode is read without regard to case: two spellings of the mode
    that agree once in lower case give the same arguments, or the same
    error. *)
Theorem mode_is_case_insensitive enc m m' :
  lower m = lower m' ->
  build_video_args (<["mode" := VStr m]> enc)
  = build_video_args (<["mode" := VStr m']> enc).
Proof.
  intros H. rewrite (build_video_args_mode enc m), H.
  symmetry. apply build_video_args_mode.
Qed.

Lemma mode_is_case_insensitive_witness :
  build_video_args (<["mode" := VStr "CRF"]> (<["crf" := VInt 23]> ∅))
  = build_video_args (<["mode" := VStr "crf"]> (<["crf" := VInt 23]> ∅)).
Proof.
  apply (mode_is_case_insensitive (<["crf" := VInt 23]> ∅) "CRF" "crf").
  reflexivity.
Defined.

(** Whenever the builder returns, its arguments are the speed tier followed
    by the controls of exactly one mode: a target, maximum and buffer size
    (twice the number read from the bitrate, with the suffix [k]), or a
    quality factor with the bitrate target set to [0].  The two are never
    mixed. *)
Theorem rate_control_is_one_mode enc args :
  build_video_args enc = Ok args ->
  (exists vb n,
      get enc "video_bitrate" (VStr "5000k") = VStr vb
      /\ parse_int (drop_last vb) = Some n
      /\ args = [VStr "-preset"; get enc "x264_preset" (VStr "medium");
                 VStr "-b:v"; VStr vb; VStr "-maxrate"; VStr vb;
                 VStr "-bufsize"; VStr (str_of_int (n * 2) +:+ "k")])
  \/ (exists c,
      py_str (get enc "crf" (VInt 20)) = Ok c
      /\ args = [VStr "-preset"; get enc "x264_preset" (VStr "medium");
                 VStr "-crf"; VStr c; VStr "-b:v"; VStr "0"]).
Proof.
  unfold build_video_args.
  destruct (py_lower (get enc "mode" (VStr "bitrate"))) as [m|e];
    [| discriminate].
  cbn [rbind]. destruct (String.eqb m "bitrate").
  - destruct (get enc "video_bitrate" (VStr "5000k")) as [| | |vb|];
      try discriminate.
    cbn [py_drop_last rbind]. unfold int_of_str.
    destruct (parse_int (drop_last vb)) as [n|] eqn:Hn; [| discriminate].
    cbn [rbind]. intros [= <-]. left. eauto.
  - destruct (String.eqb m "crf"); [| discriminate].
    destruct (py_str (get enc "crf" (VInt 20))) as [c|e] eqn:Hc;
      [| discriminate].
    cbn [rbind]. intros [= <-]. right. eauto.
Qed.

Lemma rate_control_is_one_mode_witness :
  exists c,
    py_str (get (<["mode" := VStr "crf"]> ∅) "crf" (VInt 20)) = Ok c
    /\ [VStr "-preset"; VStr "medium"; VStr "-crf"; VStr "20";
        VStr "-b:v"; VStr "0"]
       = [VStr "-preset";
          get (<["mode" := VStr "crf"]> ∅) "x264_preset" (VStr "medium");
          VStr "-crf"; VStr c; VStr "-b:v"; VStr "0"].
Proof.
  destruct (rate_control_is_one_mode (<["mode" := VStr "crf"]> ∅)
              [VStr "-preset"; VStr "medium"; VStr "-crf"; VStr "20";
               VStr "-b:v"; VStr "0"])
    as [(vb & n & _ & _ & H) | H];
    [reflexivity | discriminate H | exact H].
Defined.

(** * Further properties of the command and of one job *)

Lemma parse_int_numeral n : int_of_str (str_of_int n) = Ok n.
Proof. unfold int_of_str. by rewrite parse_int_str_of_int. Qed.

Lemma getitem_insert_eq (d : gmap string value) k v :
  getitem (<[k := v]> d) k = Ok v.
Proof. unfold getitem. by rewrite lookup_insert_eq. Qed.

Lemma getitem_insert_ne (d : gmap string value) k k' v :
  k <> k' -> getitem (<[k := v]> d) k' = getitem d k'.
Proof. intros H. unfold getitem. by rewrite lookup_insert_ne. Qed.

Lemma encode_of_insert_ne h (d : gmap string value) k v :
  k <> "encode" -> encode_of h (<[k := v]> d) = encode_of h d.
Proof. intros H. unfold encode_of. by rewrite lookup_insert_ne. Qed.

(** A width, height or frame rate that the preset gives as the text of an
    integer is read as that integer: the command is the one built with the
    integer itself. *)
Theorem numeral_text_is_an_integer h infile outfile (p : gmap string value)
    k n :
  k = "width" \/ k = "height" \/ k = "fps" ->
  p !! k = Some (VStr (str_of_int n)) ->
  build_cmd h infile outfile p
  = build_cmd h infile outfile (<[k := VInt n]> p).
Proof.
  intros Hk Hp. unfold build_cmd.
  destruct Hk as [-> | [-> | ->]];
    rewrite ?getitem_insert_eq, ?get_insert_eq,
      ?getitem_insert_ne, ?get_insert_ne, ?encode_of_insert_ne by done.
  - rewrite (getitem_Some _ _ _ Hp). cbn [rbind py_int].
    by rewrite parse_int_numeral.
  - rewrite (getitem_Some _ _ _ Hp). cbn [rbind py_int].
    by rewrite parse_int_numeral.
  - rewrite (get_Some _ _ _ _ Hp). cbn [rbind py_int].
    by rewrite parse_int_numeral.
Qed.

Lemma numeral_text_is_an_integer_witness :
  build_cmd ∅ ["clip.mp4"] ["out"; "clip_p.mp4"]
    (<["width" := VStr "1080"]> (<["height" := VInt 1920]> ∅))
  = build_cmd ∅ ["clip.mp4"] ["out"; "clip_p.mp4"]
      (<["width" := VInt 1080]>
         (<["width" := VStr "1080"]> (<["height" := VInt 1920]> ∅))).
Proof.
  apply (numeral_text_is_an_integer ∅ ["clip.mp4"] ["out"; "clip_p.mp4"]
           (<["width" := VStr "1080"]> (<["height" := VInt 1920]> ∅))
           "width" 1080).
  - left. reflexivity.
  - reflexivity.
Defined.

Section OneJob.

Variable encoder : list (list string) -> list string -> result Z.

(** Every run of [process_one], dry or real, from one state: either the
    command cannot be built, and the run raises in that state, or it is the
    run of [process_one_run] for the command [argv]. *)
Lemma process_one_cases infile outdir n p st :
  (exists e, forall dry,
      process_one encoder infile outdir n p dry st = (st, Raise e))
  \/ (exists d outfile cmd argv,
      st_heap st !! p = Some d
      /\ build_cmd (st_heap st) infile outfile d = Ok cmd
      /\ all_str cmd = Ok argv
      /\ forall dry,
           process_one encoder infile outdir n p dry st
           = if dry
             then (State (st_heap st) (st_calls st)
                     (st_stdout st ++ ["DRY RUN: " +:+ join " " argv]), Ok 0)
             else (State (st_heap st) (st_calls st ++ [argv])
                     (st_stdout st ++ ["Running: " +:+ join " " argv]),
                   encoder (st_calls st) argv)).
Proof.
  destruct st as [h c o]. cbn [st_heap st_calls st_stdout].
  destruct (h !! p) as [d|] eqn:Hp.
  2: { left. exists OutOfModel. intros dry.
       unfold process_one, bind, read. simpl. by rewrite Hp. }
  destruct (normalize_outname (path_stem infile) n
              (get d "container" (VStr "mp4"))) as [name|e] eqn:Hname.
  2: { left. exists e. intros dry. unfold process_one.
       rewrite !(bind_run _ _ _ _ _ (read_run h c o p d Hp)).
       by rewrite Hname. }
  destruct (build_cmd h infile (path_div outdir name) d) as [cmd|e] eqn:Hcmd.
  2: { left. exists e. intros dry. unfold process_one.
       rewrite !(bind_run _ _ _ _ _ (read_run h c o p d Hp)).
       rewrite Hname. unfold bind, lift. simpl. by rewrite Hcmd. }
  destruct (all_str cmd) as [argv|e] eqn:Hargv.
  2: { left. exists e. intros dry. unfold process_one.
       rewrite !(bind_run _ _ _ _ _ (read_run h c o p d Hp)).
       rewrite Hname. unfold bind, lift, py_join. simpl.
       rewrite Hcmd, Hargv. by destruct dry. }
  right. exists d, (path_div outdir name), cmd, argv.
  repeat (split; [done |]). intros dry.
  apply (process_one_run encoder _ _ _ _ dry _ _ _ _ _ _ _
           Hp Hname Hcmd Hargv).
Qed.

(** A dry run shows the command of the real run: either the command cannot
    be built, and both runs raise the same error in the same state, or both
    print the same command line, the dry run returning [0] without a call
    and the real run handing exactly that command to the encoder. *)
Theorem dry_run_shows_the_real_command infile outdir n p st :
  (exists e,
      process_one encoder infile outdir n p true st = (st, Raise e)
      /\ process_one encoder infile outdir n p false st = (st, Raise e))
  \/ (exists argv,
      process_one encoder infile outdir n p true st
      = (State (st_heap st) (st_calls st)
           (st_stdout st ++ ["DRY RUN: " +:+ join " " argv]), Ok 0)
      /\ process_one encoder infile outdir n p false st
         = (State (st_heap st) (st_calls st ++ [argv])
              (st_stdout st ++ ["Running: " +:+ join " " argv]),
            encoder (st_calls st) argv)).
Proof.
  destruct (process_one_cases infile outdir n p st)
    as [[e H] | (d & outfile & cmd & argv & _ & _ & _ & H)].
  - left. exists e. split; apply H.
  - right. exists argv. split; [apply (H true) | apply (H false)].
Qed.

End OneJob.

(** * Where the output is written *)

Lemma path_root_no_slash cs : "/"%char ∉ cs -> path_root cs = [].
Proof.
  destruct cs as [|c cs]; [reflexivity |]. intros H.
  apply not_elem_of_cons in H as [H _]. revert H.
  destruct c as [[] [] [] [] [] [] [] []]; try reflexivity. congruence.
Qed.

Lemma is_root_has_slash s : is_root s = true -> ~ no_slash s.
Proof.
  unfold is_root, no_slash. intros H Hn.
  apply orb_true_iff in H as [H | H]; apply String.eqb_eq in H; subst s;
    apply Hn; simpl; left.
Qed.

(** A name without a slash, other than the empty one and the dot, is one
    part, and joining it to a directory appends it. *)
Lemma path_div_plain base name :
  no_slash name -> name <> "" -> name <> "." ->
  path_div base name = base ++ [name].
Proof.
  intros Hs He Hd. unfold path_div, parse_path.
  rewrite path_root_no_slash, split_on_no_sep by exact Hs.
  cbn [map app List.filter]. rewrite string_of_list_ascii_of_string.
  unfold keep_part.
  apply String.eqb_neq in He, Hd. rewrite He, Hd. cbn [negb andb].
  destruct (is_root name) eqn:Hr; [| reflexivity].
  by apply is_root_has_slash in Hr.
Qed.

Lemma no_slash_app s t : no_slash s -> no_slash t -> no_slash (s +:+ t).
Proof.
  unfold no_slash. rewrite chars_app. intros Hs Ht.
  by apply not_elem_of_app.
Qed.

Lemma chars_of_list cs : list_ascii_of_string (string_of_list_ascii cs) = cs.
Proof. apply list_ascii_of_string_of_list_ascii. Qed.

Lemma path_stem_no_slash p : no_slash (path_name p) -> no_slash (path_stem p).
Proof.
  unfold path_stem, no_slash. intros H.
  destruct (rfind_dot _ _ _) as [i|]; [| exact H].
  destruct (_ && _); [| exact H].
  rewrite chars_of_list. intros Hin. apply H.
  by eapply subseteq_take.
Qed.

Lemma app_not_empty s c t : s +:+ String c t <> "".
Proof. destruct s; discriminate. Qed.

Lemma outname_not_dot stem n c : stem +:+ "_" +:+ n +:+ "." +:+ c <> ".".
Proof.
  destruct stem as [|a [|b stem]]; discriminate.
Qed.

(** The name of the output is [{stem}_{preset}.{container}], a single part
    appended to the output directory, whenever the name of the input, the
    name of the preset and the container hold no slash. *)
Lemma output_path_plain infile outdir n c :
  no_slash (path_name infile) -> no_slash n -> no_slash c ->
  exists name,
    normalize_outname (path_stem infile) n (VStr c) = Ok name
    /\ name = path_stem infile +:+ "_" +:+ n +:+ "." +:+ c
    /\ path_div outdir name = outdir ++ [name].
Proof.
  intros Hi Hn Hc. eexists. split; [reflexivity |]. split; [reflexivity |].
  apply path_div_plain.
  - repeat apply no_slash_app; try done.
    + by apply path_stem_no_slash.
    + intros H. apply (bool_decide_pack _) in H. vm_compute in H. exact H.
    + intros H. apply (bool_decide_pack _) in H. vm_compute in H. exact H.
  - apply app_not_empty.
  - apply outname_not_dot.
Qed.

Lemma build_cmd_last h infile outfile d cmd :
  build_cmd h infile outfile d = Ok cmd ->
  exists front, cmd = front ++ [VStr (path_str outfile)].
Proof.
  unfold build_cmd. intros H.
  repeat match type of H with
         | rbind ?r _ = Ok _ =>
             destruct r; [cbn [rbind] in H | discriminate H]
         end.
  injection H as <-.
  match goal with
  | |- exists front, ?c = _ => exists (removelast c)
  end.
  etrans; [apply (app_removelast_last (VStr "")); discriminate |].
  do 2 f_equal.
  rewrite !last_cons_default, last_app_default. reflexivity.
Qed.

Lemma all_str_length l r : all_str l = Ok r -> length r = length l.
Proof.
  revert r. induction l as [|v l IH]; intros r; simpl.
  - by intros [= <-].
  - destruct v; try discriminate.
    destruct (all_str l) as [r'|]; [| discriminate].
    cbn [rbind]. intros [= <-]. simpl. by rewrite (IH r').
Qed.

Lemma all_str_last front s argv :
  all_str (front ++ [VStr s]) = Ok argv -> List.last argv "" = s.
Proof.
  revert argv. induction front as [|v front IH]; intros argv; simpl.
  - by intros [= <-].
  - destruct v; try discriminate.
    destruct (all_str (front ++ [VStr s])) as [r|] eqn:E; [| discriminate].
    cbn [rbind]. intros [= <-]. specialize (IH r eq_refl).
    destruct r; [| exact IH].
    apply all_str_length in E. rewrite length_app in E. simpl in E. lia.
Qed.

(** A real run that reaches the encoder hands it a command whose last
    argument is the output file [{stem}_{preset}.{container}] directly in
    the output directory, when the name of the input, the name of the
    preset and the container hold no slash. *)
Theorem output_file_is_in_outdir encoder infile outdir n p d c st st' r argv :
  st_heap st !! p = Some d ->
  get d "container" (VStr "mp4") = VStr c ->
  no_slash (path_name infile) -> no_slash n -> no_slash c ->
  process_one encoder infile outdir n p false st = (st', r) ->
  st_calls st' = st_calls st ++ [argv] ->
  List.last argv ""
  = path_str (outdir ++ [path_stem infile +:+ "_" +:+ n +:+ "." +:+ c]).
Proof.
  intros Hp Hc Hi Hn Hcs Hrun Hcalls.
  destruct (output_path_plain infile outdir n c Hi Hn Hcs)
    as (name & Hname & -> & Hdiv).
  destruct (process_one_inv _ _ _ _ _ _ _ _ _ Hrun)
    as [_ [(_ & Hsame & _) | [(Hd & _) | (_ & argv' & line & Hc' & _)]]].
  - rewrite Hsame in Hcalls.
    apply (f_equal length) in Hcalls. rewrite length_app in Hcalls.
    simpl in Hcalls. lia.
  - discriminate.
  - destruct st as [h cs o]. simpl in *.
    destruct (build_cmd h infile
                (path_div outdir
                   (path_stem infile +:+ "_" +:+ n +:+ "." +:+ c)) d)
      as [cmd|e] eqn:Hcmd.
    2: { exfalso. unfold process_one in Hrun.
         rewrite (bind_run _ _ _ _ _ (read_run h cs o p d Hp)) in Hrun.
         rewrite Hc, Hname in Hrun. unfold bind, lift in Hrun.
         simpl in Hrun. rewrite Hcmd in Hrun. injection Hrun as <- _.
         simpl in Hcalls. apply (f_equal length) in Hcalls.
         rewrite length_app in Hcalls. simpl in Hcalls. lia. }
    destruct (all_str cmd) as [args|e] eqn:Hargs.
    2: { exfalso. unfold process_one in Hrun.
         rewrite (bind_run _ _ _ _ _ (read_run h cs o p d Hp)) in Hrun.
         rewrite Hc, Hname in Hrun. unfold bind, lift, py_join in Hrun.
         simpl in Hrun. rewrite Hcmd, Hargs in Hrun. injection Hrun as <- _.
         simpl in Hcalls. apply (f_equal length) in Hcalls.
         rewrite length_app in Hcalls. simpl in Hcalls. lia. }
    rewrite <- Hc in Hname.
    rewrite (process_one_run encoder _ _ _ _ false _ _ _ _ _ _ _
               Hp Hname Hcmd Hargs) in Hrun.
    injection Hrun as <- _. simpl in Hcalls.
    apply app_inj_tail in Hcalls as [_ <-].
    destruct (build_cmd_last _ _ _ _ _ Hcmd) as [front ->].
    rewrite (all_str_last _ _ _ Hargs). by rewrite Hdiv.
Qed.

Lemma output_file_is_in_outdir_witness :
  List.last
    (List.last
       (st_calls
          (process_one always_fails ["in"; "clip.mp4"] ["outputs"] "reel"
             0%nat false sample_state).1) []) ""
  = "outputs/clip_reel.mp4".
Proof.
  etrans;
    [ apply (output_file_is_in_outdir always_fails ["in"; "clip.mp4"]
               ["outputs"] "reel" 0%nat sample_reel "mp4" sample_state
               (process_one always_fails ["in"; "clip.mp4"] ["outputs"]
                  "reel" 0%nat false sample_state).1
               (process_one always_fails ["in"; "clip.mp4"] ["outputs"]
                  "reel" 0%nat false sample_state).2)
    | reflexivity ].
  - reflexivity.
  - reflexivity.
  - intros H. apply (bool_decide_pack _) in H. vm_compute in H. exact H.
  - intros H. apply (bool_decide_pack _) in H. vm_compute in H. exact H.
  - intros H. apply (bool_decide_pack _) in H. vm_compute in H. exact H.
  - apply surjective_pairing.
  - vm_compute. reflexivity.
Defined.

(** * The cases of [collect_inputs] *)

Lemma sorted_nil : sorted [] = [].
Proof. reflexivity. Qed.

Lemma sorted_not_nil l : l <> [] -> sorted l <> [].
Proof.
  intros Hl Hs. apply Hl.
  apply Permutation_nil_r. rewrite <- Hs. unfold sorted.
  symmetry. apply merge_sort_Permutation.
Qed.

(** A file is taken as the only input whatever its name; a path that is
    neither a file nor a directory ends the program; a directory none of
    whose entries has a video extension gives the empty list after one
    warning line; any other directory gives a non-empty list and prints
    nothing. *)
Theorem collect_inputs_cases exts input_path st :
  collect_inputs exts input_path (Some File) st = (st, Ok [input_path])
  /\ collect_inputs exts input_path None st
     = (st, Raise (SystemExit ("Error: input path does not exist: "
                                 +:+ path_str input_path)))
  /\ (forall children,
        exts ≡ₚ VIDEO_EXTS ->
        List.filter is_video (entries input_path (Dir children)) = [] ->
        collect_inputs exts input_path (Some (Dir children)) st
        = (State (st_heap st) (st_calls st)
             (st_stdout st
                ++ ["Warning: No videos found in " +:+ path_str input_path]),
           Ok []))
  /\ (forall children,
        exts ≡ₚ VIDEO_EXTS ->
        List.filter is_video (entries input_path (Dir children)) <> [] ->
        exists files,
          collect_inputs exts input_path (Some (Dir children)) st
          = (st, Ok files)
          /\ files <> []).
Proof.
  split; [reflexivity |]. split; [reflexivity |]. split.
  - intros children Hexts Hnone. unfold collect_inputs.
    pose proof (rglob_all_exts exts input_path (Dir children) Hexts) as Hp.
    rewrite Hnone in Hp. apply Permutation_nil_r in Hp. rewrite Hp.
    reflexivity.
  - intros children Hexts Hsome. unfold collect_inputs.
    pose proof (rglob_all_exts exts input_path (Dir children) Hexts) as Hp.
    destruct (flat_map (rglob input_path (Dir children)) exts) as [|f fs] eqn:E.
    + symmetry in Hp. apply Permutation_nil_r in Hp. contradiction.
    + eexists. split; [reflexivity |]. by apply sorted_not_nil.
Qed.

Lemma collect_inputs_cases_witness :
  collect_inputs VIDEO_EXTS ["in"]
    (Some (Dir [("notes.txt", File); ("CLIP.MP4", File)])) sample_state
  = (State (st_heap sample_state) (st_calls sample_state)
       (st_stdout sample_state ++ ["Warning: No videos found in in"]),
     Ok []).
Proof.
  destruct (collect_inputs_cases VIDEO_EXTS ["in"] sample_state)
    as (_ & _ & H & _).
  apply (H [("notes.txt", File); ("CLIP.MP4", File)]); reflexivity.
Defined.

(** * What the overrides write, and what they leave *)

Lemma upd_int_truthy n k d : n <> 0 -> upd_int (Some n) k d = <[k := VInt n]> d.
Proof.
  intros H. unfold upd_int. destruct (n =? 0) eqn:E; [lia | reflexivity].
Qed.

Lemma upd_str_truthy s k d : s <> "" -> upd_str (Some s) k d = <[k := VStr s]> d.
Proof.
  intros H. unfold upd_str. apply String.eqb_neq in H. by rewrite H.
Qed.

(** A key that no override names is carried over from the base. *)
Lemma merged_preset_other d0 a enc k :
  k <> "width" -> k <> "height" -> k <> "fps" -> k <> "strategy" ->
  k <> "encode" -> k <> "audio_bitrate" ->
  merged_preset d0 a enc !! k = d0 !! k.
Proof.
  intros. unfold merged_preset.
  rewrite upd_str_other, lookup_insert_ne, upd_str_other, !upd_int_other
    by done.
  reflexivity.
Qed.

Lemma merged_encode_other e0 a k :
  k <> "mode" -> k <> "video_bitrate" -> k <> "crf" -> k <> "x264_preset" ->
  merged_encode e0 a !! k = e0 !! k.
Proof.
  intros. unfold merged_encode. rewrite upd_str_other by done.
  destruct (crf a); rewrite ?lookup_insert_ne, !upd_str_other by done;
    reflexivity.
Qed.

(** An override that is neither [0] nor empty replaces the field of the
    base (an override of the mode only when no crf is given), and every key
    of the base preset and of its encode dictionary that no override names
    is carried over unchanged. *)
Theorem overrides_replace_and_carry st lb d0 e0 a :
  preset_at (st_heap st) lb d0 e0 ->
  exists st' out d enc e,
    apply_overrides (VDict lb) a st = (st', Ok out)
    /\ st_heap st' !! out = Some d
    /\ d !! "encode" = Some (VDict enc)
    /\ st_heap st' !! enc = Some e
    /\ (forall w, width a = Some w -> w <> 0 -> d !! "width" = Some (VInt w))
    /\ (forall x, height a = Some x -> x <> 0 ->
          d !! "height" = Some (VInt x))
    /\ (forall x, fps a = Some x -> x <> 0 -> d !! "fps" = Some (VInt x))
    /\ (forall s, strategy a = Some s -> s <> "" ->
          d !! "strategy" = Some (VStr s))
    /\ (forall s, audio_bitrate a = Some s -> s <> "" ->
          d !! "audio_bitrate" = Some (VStr s))
    /\ (forall s, mode a = Some s -> s <> "" -> crf a = None ->
          e !! "mode" = Some (VStr s))
    /\ (forall s, video_bitrate a = Some s -> s <> "" ->
          e !! "video_bitrate" = Some (VStr s))
    /\ (forall s, x264_preset a = Some s -> s <> "" ->
          e !! "x264_preset" = Some (VStr s))
    /\ (forall k,
          k <> "width" -> k <> "height" -> k <> "fps" -> k <> "strategy" ->
          k <> "encode" -> k <> "audio_bitrate" -> d !! k = d0 !! k)
    /\ (forall k,
          k <> "mode" -> k <> "video_bitrate" -> k <> "crf" ->
          k <> "x264_preset" -> e !! k = e0 !! k).
Proof.
  intros Hp. destruct st as [h c o]. simpl in Hp.
  destruct (apply_overrides_run h c o lb d0 e0 a Hp)
    as (h' & out & enc & Hrun & _ & _ & _ & Hout & Henc & _).
  exists (State h' c o), out, (merged_preset d0 a enc), enc,
    (merged_encode e0 a).
  simpl. repeat (split; [by auto using merged_preset_encode |]).
  unfold merged_preset, merged_encode.
  repeat split.
  - intros w -> Hw. rewrite (upd_int_truthy w) by done.
    rewrite upd_str_other, lookup_insert_ne, upd_str_other,
      !upd_int_other by done.
    apply lookup_insert_eq.
  - intros x -> Hx. rewrite (upd_int_truthy x) by done.
    rewrite upd_str_other, lookup_insert_ne, upd_str_other,
      upd_int_other by done.
    apply lookup_insert_eq.
  - intros x -> Hx. rewrite (upd_int_truthy x) by done.
    rewrite upd_str_other, lookup_insert_ne, upd_str_other by done.
    apply lookup_insert_eq.
  - intros s -> Hs. rewrite (upd_str_truthy s "strategy") by done.
    rewrite upd_str_other, lookup_insert_ne by done.
    apply lookup_insert_eq.
  - intros s -> Hs. rewrite (upd_str_truthy s "audio_bitrate") by done.
    apply lookup_insert_eq.
  - intros s -> Hs ->. rewrite (upd_str_truthy s "mode") by done.
    rewrite !upd_str_other by done. apply lookup_insert_eq.
  - intros s -> Hs. rewrite (upd_str_truthy s "video_bitrate") by done.
    rewrite upd_str_other by done.
    destruct (crf a); rewrite ?lookup_insert_ne by done;
      apply lookup_insert_eq.
  - intros s -> Hs. rewrite (upd_str_truthy s "x264_preset") by done.
    apply lookup_insert_eq.
  - intros k. apply merged_preset_other.
  - intros k. apply merged_encode_other.
Qed.

Lemma overrides_replace_and_carry_witness :
  exists st' out d enc e,
    apply_overrides (VDict 0%nat)
      {| dry_run := false; width := Some 720; height := None; fps := None;
         strategy := Some "contain"; mode := None;
         video_bitrate := Some "2500k"; crf := None; x264_preset := None;
         audio_bitrate := None |}
      sample_state
    = (st', Ok out)
    /\ st_heap st' !! out = Some d
    /\ st_heap st' !! enc = Some e
    /\ d !! "width" = Some (VInt 720)
    /\ d !! "strategy" = Some (VStr "contain")
    /\ e !! "video_bitrate" = Some (VStr "2500k")
    /\ d !! "pad_color" = sample_reel !! "pad_color".
Proof.
  destruct (overrides_replace_and_carry sample_state 0%nat sample_reel
              sample_reel_encode
              {| dry_run := false; width := Some 720; height := None;
                 fps := None; strategy := Some "contain"; mode := None;
                 video_bitrate := Some "2500k"; crf := None;
                 x264_preset := None; audio_bitrate := None |}
              sample_preset_at)
    as (st' & out & d & enc & e & Hrun & Hout & _ & Henc & Hw & _ & _ & Hs
        & _ & _ & Hvb & _ & Hd & He).
  exists st', out, d, enc, e.
  repeat (split; [assumption |]).
  split; [by apply Hw |]. split; [by apply Hs |]. split; [by apply Hvb |].
  by apply Hd.
Defined.

(** * Two jobs over one base preset *)

(** Two merges over the same base preset, one after the other, return four
    different new objects (two presets, two encode dictionaries); the second
    merge leaves the result of the first as it was, and both leave the base
    as it was.  So the presets of two jobs share no dictionary. *)
Theorem jobs_share_no_dictionary st lb d0 e0 a1 a2 :
  preset_at (st_heap st) lb d0 e0 ->
  exists st1 st2 out1 enc1 out2 enc2,
    apply_overrides (VDict lb) a1 st = (st1, Ok out1)
    /\ apply_overrides (VDict lb) a2 st1 = (st2, Ok out2)
    /\ NoDup [out1; enc1; out2; enc2]
    /\ st_heap st2 !! out1 = Some (merged_preset d0 a1 enc1)
    /\ st_heap st2 !! enc1 = Some (merged_encode e0 a1)
    /\ st_heap st2 !! out2 = Some (merged_preset d0 a2 enc2)
    /\ st_heap st2 !! enc2 = Some (merged_encode e0 a2)
    /\ preset_at (st_heap st2) lb d0 e0.
Proof.
  intros Hp. destruct st as [h c o]. simpl in Hp.
  destruct (apply_overrides_run h c o lb d0 e0 a1 Hp)
    as (h1 & out1 & enc1 & Hrun1 & _ & _ & Hne1 & Hout1 & Henc1 & Hext1).
  pose proof (preset_at_extends _ _ _ _ _ Hext1 Hp) as Hp1.
  destruct (apply_overrides_run h1 c o lb d0 e0 a2 Hp1)
    as (h2 & out2 & enc2 & Hrun2 & Hnew_out & Hnew_enc & Hne2 & Hout2 & Henc2
        & Hext2).
  exists (State h1 c o), (State h2 c o), out1, enc1, out2, enc2.
  simpl. repeat (split; [done |]). split.
  - assert (out1 <> out2) by congruence.
    assert (out1 <> enc2) by congruence.
    assert (enc1 <> out2) by congruence.
    assert (enc1 <> enc2) by congruence.
    repeat (apply NoDup_cons; split;
            [rewrite ?elem_of_cons, elem_of_nil; intuition congruence |]).
    apply NoDup_nil_2.
  - repeat (split; [by auto |]). by eapply preset_at_extends.
Qed.

Lemma jobs_share_no_dictionary_witness :
  exists st1 st2 out1 enc1 out2 enc2,
    apply_overrides (VDict 0%nat) sample_overrides sample_state
    = (st1, Ok out1)
    /\ apply_overrides (VDict 0%nat) no_overrides st1 = (st2, Ok out2)
    /\ NoDup [out1; enc1; out2; enc2]
    /\ st_heap st2 !! out1
       = Some (merged_preset sample_reel sample_overrides enc1)
    /\ st_heap st2 !! enc1
       = Some (merged_encode sample_reel_encode sample_overrides)
    /\ st_heap st2 !! out2 = Some (merged_preset sample_reel no_overrides enc2)
    /\ st_heap st2 !! enc2
       = Some (merged_encode sample_reel_encode no_overrides)
    /\ preset_at (st_heap st2) 0%nat sample_reel sample_reel_encode.
Proof.
  exact (jobs_share_no_dictionary sample_state 0%nat sample_reel
           sample_reel_encode sample_overrides no_overrides sample_preset_at).
Defined.
